(** * Federated linear regression with Paillier-encrypted gradients (fed.py)

    A shallow embedding of [src/fed.py] and the properties of its
    aggregation round.

    Modelling choices.
    - A Python [float] / numpy [float64] is an element of a [Scalar]: a
      carrier with the arithmetic the program uses.  Statements that only
      depend on the program's structure hold for every [Scalar]; statements
      about values ("equals the average") are proved under the field laws,
      that is in exact arithmetic, which is what "up to numeric precision"
      refers to.  Two instances are given below: the rationals [Qc], and
      [xnum], rationals extended with the IEEE special values.
    - A one-dimensional numpy array is a [list]; a two-dimensional one is an
      [ndarray2] (column count and list of rows).  Shape errors that numpy
      raises are modelled as [Raise (ValueError _)].
    - The [phe] library (python-paillier) is not part of the repository: it
      is the parameter [Paillier].
    - [random.random()] and the randomness drawn inside [phe] are read from
      an explicit [Entropy] state.
    - [PrivateKey.decrypt] yields an element of the [Scalar].  phe decodes
      a plaintext whose encoding has a non-negative exponent to a Python
      [int]; for magnitudes beyond 64 bits [np.array] then builds an array
      of Python objects, and the in-place subtraction of line 201 raises a
      cast error on it.  Neither the decoding to [int] nor that error is
      modelled: what is proved of the hybrid round is what it computes
      when it completes, and its completion is a hypothesis wherever the
      conclusion depends on it. *)

From Stdlib Require Import String DecimalString Bool Arith Lia.
From Stdlib Require Import ZArith QArith Qcanon Field.
From Stdlib Require Import List Permutation.
Import ListNotations.
Local Open Scope string_scope.
Local Open Scope nat_scope.

Set Implicit Arguments.

(** ** Python exceptions and fallible computations *)

Inductive exception : Type :=
| ValueError (msg : string)
| TypeError (msg : string)
| ZeroDivisionError (msg : string)
| AttributeError (msg : string)
| IndexError (msg : string).

Inductive result (A : Type) : Type :=
| Ok (a : A)
| Raise (e : exception).

Arguments Ok {A} a.
Arguments Raise {A} e.

Definition bindR {A B} (r : result A) (k : A -> result B) : result B :=
  match r with
  | Ok a => k a
  | Raise e => Raise e
  end.

(** The computation returned rather than raised. *)
Definition completes {A} (r : result A) : bool :=
  match r with
  | Ok _ => true
  | Raise _ => false
  end.

(** A computation over a mutable state [S] that may raise. *)
Definition SE (S A : Type) : Type := S -> result (A * S).

Definition ret {S A} (a : A) : SE S A := fun s => Ok (a, s).

Definition bind {S A B} (m : SE S A) (k : A -> SE S B) : SE S B :=
  fun s => match m s with
           | Ok (a, s') => k a s'
           | Raise e => Raise e
           end.

Definition get {S} : SE S S := fun s => Ok (s, s).
Definition put {S} (s : S) : SE S unit := fun _ => Ok (tt, s).
Definition liftR {S A} (r : result A) : SE S A :=
  fun s => match r with Ok a => Ok (a, s) | Raise e => Raise e end.

Declare Scope se_scope.
Delimit Scope se_scope with se.
Notation "x <- m ;; k" := (bind m (fun x => k))
  (at level 61, m at next level, right associativity) : se_scope.
Notation "m ;;; k" := (bind m (fun _ => k))
  (at level 61, right associativity) : se_scope.

(** [for x in xs: body x], collecting the values. *)
Fixpoint mapM {S A B} (f : A -> SE S B) (xs : list A) : SE S (list B) :=
  match xs with
  | [] => ret []
  | x :: xs' => (b <- f x ;; bs <- mapM f xs' ;; ret (b :: bs))%se
  end.

Fixpoint mapR {A B} (f : A -> result B) (xs : list A) : result (list B) :=
  match xs with
  | [] => Ok []
  | x :: xs' => bindR (f x) (fun b => bindR (mapR f xs') (fun bs => Ok (b :: bs)))
  end.

(** [for _ in range(n): body]. *)
Fixpoint repeatM {S} (n : nat) (body : SE S unit) : SE S unit :=
  match n with
  | O => ret tt
  | S n' => (body ;;; repeatM n' body)%se
  end.

(** ** Numbers *)

Class Scalar : Type := {
  num : Type;
  zero : num;
  one : num;
  add : num -> num -> num;
  sub : num -> num -> num;
  mul : num -> num -> num;
  div : num -> num -> num;
  opp : num -> num;
  inv : num -> num;
  of_nat : nat -> num;      (* a non-negative Python int used as a float *)
  hundredth : num           (* the literal 0.01 *)
}.

(** ** numpy on one- and two-dimensional arrays *)

Fixpoint zip_with {A B C} (f : A -> B -> C) (x : list A) (y : list B) : list C :=
  match x, y with
  | a :: x', b :: y' => f a b :: zip_with f x' y'
  | _, _ => []
  end.

(** An element-wise binary operation [x (op) y] on 1-D arrays, with numpy's
    broadcasting: equal lengths, or one operand of length 1. *)
Definition broadcast {A B C} (f : A -> B -> C) (x : list A) (y : list B)
  : result (list C) :=
  if length x =? length y then Ok (zip_with f x y)
  else match x, y with
       | [a], _ => Ok (map (f a) y)
       | _, [b] => Ok (map (fun a => f a b) x)
       | _, _ => Raise (ValueError "operands could not be broadcast together")
       end.

(** In-place [x (op)= y]: the result must have the shape of [x]. *)
Definition broadcast_inplace {A B} (f : A -> B -> A) (x : list A) (y : list B)
  : result (list A) :=
  if length x =? length y then Ok (zip_with f x y)
  else match y with
       | [b] => Ok (map (fun a => f a b) x)
       | _ => Raise (ValueError "non-broadcastable output operand")
       end.

Record ndarray2 `{Scalar} : Type := {
  ncols : nat;                 (* X.shape[1] *)
  rows : list (list num)       (* len(X) = length rows *)
}.

Section Numpy.
Context `{Scalar}.

(** Inner product of two 1-D arrays. *)
Fixpoint inner (x y : list num) : num :=
  match x, y with
  | a :: x', b :: y' => add (mul a b) (inner x' y')
  | _, _ => zero
  end.

(** [X.dot(w)] for a 2-D [X] and a 1-D [w]. *)
Definition dot_mv (M : ndarray2) (w : list num) : result (list num) :=
  if ncols M =? length w
  then Ok (map (fun r => inner r w) (rows M))
  else Raise (ValueError "shapes not aligned").

Fixpoint vecmat (D : nat) (d : list num) (rs : list (list num)) : list num :=
  match d, rs with
  | a :: d', r :: rs' => zip_with add (map (mul a) r) (vecmat D d' rs')
  | _, _ => repeat zero D
  end.

(** [d.dot(X)] for a 1-D [d] and a 2-D [X]. *)
Definition dot_vm (d : list num) (M : ndarray2) : result (list num) :=
  if length d =? length (rows M)
  then Ok (vecmat (ncols M) d (rows M))
  else Raise (ValueError "shapes not aligned").

(** [np.zeros(n)]. *)
Definition np_zeros (n : nat) : list num := repeat zero n.

(** [np.mean(v)]. *)
Definition np_mean (v : list num) : num :=
  div (fold_left add v zero) (of_nat (length v)).
End Numpy.

(** ** mean_square_error (lines 123-125) *)

Definition mean_square_error `{Scalar} (y_pred y : list num) : result num :=
  bindR (broadcast sub y y_pred) (fun d =>
  Ok (np_mean (map (fun e => mul e e) d))).

(** ** class Net (lines 172-201) *)

Record Net `{Scalar} : Type := {
  Net_X : ndarray2;
  Net_y : list num;
  Net_weights : list num
}.

Section NetMethods.
Context `{Scalar}.

(** [Net.__init__]. *)
Definition Net_init (X : ndarray2) (y : list num) : Net :=
  {| Net_X := X; Net_y := y; Net_weights := np_zeros (ncols X) |}.

(** [Net.predict]. *)
Definition Net_predict (X : ndarray2) : SE Net (list num) :=
  (self <- get ;;
   liftR (dot_mv X (Net_weights self)))%se.

(** [Net.compute_gradient]. *)
Definition Net_compute_gradient : SE Net (list num) :=
  (self <- get ;;
   p <- Net_predict (Net_X self) ;;
   delta <- liftR (broadcast sub p (Net_y self)) ;;
   g <- liftR (dot_vm delta (Net_X self)) ;;
   ret (map (fun e => div e (of_nat (length (rows (Net_X self))))) g))%se.

(** [Net.gradient_step]: [self.weights -= eta * gradient]. *)
Definition Net_gradient_step (gradient : list num) (eta : num) : SE Net unit :=
  (self <- get ;;
   w <- liftR (broadcast_inplace sub (Net_weights self) (map (mul eta) gradient)) ;;
   put {| Net_X := Net_X self; Net_y := Net_y self; Net_weights := w |})%se.

(** [Net.fit]. *)
Definition Net_fit (n_iter : nat) (eta : num) : SE Net unit :=
  repeatM n_iter
    (gradient <- Net_compute_gradient ;;
     Net_gradient_step gradient eta)%se.
End NetMethods.

(** ** The phe library, as a parameter

    [PublicKey.encrypt], [PrivateKey.decrypt], [EncryptedNumber.__add__]
    and [EncryptedNumber.__mul__] by a plaintext scalar.  The randomness
    that [generate_paillier_keypair] and [encrypt] draw internally is an
    explicit argument.  The operations are total: the errors phe raises
    for ciphertexts of another key, or for floats it cannot encode, are
    not part of the interface. *)

Class Paillier `{Scalar} : Type := {
  PublicKey : Type;
  PrivateKey : Type;
  EncryptedNumber : Type;
  KeySeed : Type;
  Obfuscator : Type;
  generate_paillier_keypair : nat -> KeySeed -> PublicKey * PrivateKey;
  pk_encrypt : PublicKey -> Obfuscator -> num -> EncryptedNumber;
  sk_decrypt : PrivateKey -> EncryptedNumber -> num;
  enc_add : EncryptedNumber -> EncryptedNumber -> EncryptedNumber;
  enc_mul : EncryptedNumber -> num -> EncryptedNumber
}.

(** The sources of randomness of one run: the values [random.random()]
    returns, and the draws made inside phe, each with its read position. *)
Record Entropy `{Paillier} : Type := {
  py_random : nat -> num;
  py_random_pos : nat;
  phe_obfuscator : nat -> Obfuscator;
  phe_obfuscator_pos : nat;
  phe_keyseed : nat -> KeySeed;
  phe_keyseed_pos : nat
}.

(** What numpy hands back where the program expects a 1-D array:
    [np.sum([])] is the float [0.0], not an array. *)
Inductive npvalue `{Scalar} (A : Type) : Type :=
| np_float (x : num)
| np_array (v : list A).

Arguments np_float {_ A} x.
Arguments np_array {_ A} v.

(** The operations [np.sum(..) / n] applies to the elements of an array:
    [+] and [/ int]. *)
Class NpElem (A : Type) : Type := {
  el_add : A -> A -> A;
  el_truediv : A -> nat -> result A
}.

#[export] Instance NpElem_num `{Scalar} : NpElem num := {
  el_add := add;
  el_truediv := fun x n => Ok (div x (of_nat n))
}.

(** [EncryptedNumber.__truediv__(scalar)] is [self.__mul__(1 / scalar)],
    and [1 / 0] on Python ints raises. *)
#[export] Instance NpElem_enc `{Paillier} : NpElem EncryptedNumber := {
  el_add := enc_add;
  el_truediv := fun c n =>
    if n =? 0 then Raise (ZeroDivisionError "division by zero")
    else Ok (enc_mul c (div one (of_nat n)))
}.

Section Crypto.
Context `{Paillier}.

Definition random_random : SE Entropy num :=
  fun e => Ok (py_random e (py_random_pos e),
               {| py_random := py_random e;
                  py_random_pos := S (py_random_pos e);
                  phe_obfuscator := phe_obfuscator e;
                  phe_obfuscator_pos := phe_obfuscator_pos e;
                  phe_keyseed := phe_keyseed e;
                  phe_keyseed_pos := phe_keyseed_pos e |}).

Definition draw_obfuscator : SE Entropy Obfuscator :=
  fun e => Ok (phe_obfuscator e (phe_obfuscator_pos e),
               {| py_random := py_random e;
                  py_random_pos := py_random_pos e;
                  phe_obfuscator := phe_obfuscator e;
                  phe_obfuscator_pos := S (phe_obfuscator_pos e);
                  phe_keyseed := phe_keyseed e;
                  phe_keyseed_pos := phe_keyseed_pos e |}).

Definition draw_keyseed : SE Entropy KeySeed :=
  fun e => Ok (phe_keyseed e (phe_keyseed_pos e),
               {| py_random := py_random e;
                  py_random_pos := py_random_pos e;
                  phe_obfuscator := phe_obfuscator e;
                  phe_obfuscator_pos := phe_obfuscator_pos e;
                  phe_keyseed := phe_keyseed e;
                  phe_keyseed_pos := S (phe_keyseed_pos e) |}).

(** [public_key.encrypt(i)]; the public key is [None] for the parties of
    [local_learning]. *)
Definition encrypt (public_key : option PublicKey) (i : num)
  : SE Entropy EncryptedNumber :=
  match public_key with
  | Some pk => (r <- draw_obfuscator ;; ret (pk_encrypt pk r i))%se
  | None => liftR (Raise (AttributeError "'NoneType' object has no attribute 'encrypt'"))
  end.

(** [encrypt_vector] (lines 128-129). *)
Definition encrypt_vector (public_key : option PublicKey) (x : list num)
  : SE Entropy (list EncryptedNumber) :=
  mapM (encrypt public_key) x.

(** [decrypt_vector] (lines 132-133).  The values are those phe
    decrypts to; whether Python holds them as [float] or as [int], and
    hence the dtype of the array, is not recorded. *)
Definition decrypt_vector (private_key : PrivateKey) (x : npvalue EncryptedNumber)
  : result (list num) :=
  match x with
  | np_array v => Ok (map (sk_decrypt private_key) v)
  | np_float _ => Raise (TypeError "'numpy.float64' object is not iterable")
  end.

(** [sum_encrypted_vectors] (lines 136-139). *)
Definition sum_encrypted_vectors (x y : list EncryptedNumber)
  : result (list EncryptedNumber) :=
  if negb (length x =? length y)
  then Raise (ValueError "Encrypted vectors must have the same size")
  else broadcast enc_add x y.
End Crypto.

(** ** class Server (lines 142-169) *)

Record Server `{Paillier} : Type := {
  Server_pubkey : PublicKey;
  Server_privkey : PrivateKey;
  Server_n_clients : nat
}.

Section ServerMethods.
Context `{Paillier}.

(** [Server.__init__]. *)
Definition Server_init (key_length n_clients : nat) : SE Entropy Server :=
  (seed <- draw_keyseed ;;
   let keypair := generate_paillier_keypair key_length seed in
   ret {| Server_pubkey := fst keypair;
          Server_privkey := snd keypair;
          Server_n_clients := n_clients |})%se.

(** [np.sum(gradients, axis=0)]: the float [0.0] for an empty list, an
    error for rows of unequal length, and otherwise the rows added
    element by element from the first one on. *)
Definition np_sum_axis0 {A} `{NpElem A} (gradients : list (list A))
  : result (npvalue A) :=
  match gradients with
  | [] => Ok (np_float zero)
  | g :: gs =>
      if forallb (fun v => length v =? length g) gs
      then Ok (np_array (fold_left (zip_with el_add) gs g))
      else Raise (ValueError "inhomogeneous shape")
  end.

(** [Server.aggregate_gradients]. *)
Definition Server_aggregate_gradients {A} `{NpElem A}
    (self : Server) (gradients : list (list A)) : result (npvalue A) :=
  bindR (np_sum_axis0 gradients) (fun s =>
  match s with
  | np_float x => Ok (np_float (div x (of_nat (Server_n_clients self))))
  | np_array v =>
      bindR (mapR (fun c => el_truediv c (Server_n_clients self)) v)
            (fun v' => Ok (np_array v'))
  end).

(** [Server.decrypt_gradient]. *)
Definition Server_decrypt_gradient (self : Server)
    (gradient : npvalue EncryptedNumber) : result (list num) :=
  decrypt_vector (Server_privkey self) gradient.
End ServerMethods.

(** ** class Party (lines 204-229) *)

Record Party `{Paillier} : Type := {
  Party_name : string;
  Party_model : Net;
  Party_pubkey : option PublicKey
}.

Section PartyMethods.
Context `{Paillier}.

(** [Party.__init__]. *)
Definition Party_init (name : string) (X : ndarray2) (y : list num)
    (pubkey : option PublicKey) : Party :=
  {| Party_name := name; Party_model := Net_init X y; Party_pubkey := pubkey |}.

(** [Party.get_noise]. *)
Definition Party_get_noise : SE Entropy num :=
  (r <- random_random ;; ret (mul r hundredth))%se.

(** [Party.compute_partial_gradient].  [compute_gradient] assigns to no
    attribute of the model, so only its value is kept. *)
Definition Party_compute_partial_gradient (self : Party)
  : SE Entropy (list EncryptedNumber) :=
  (gradient <- liftR (bindR (Net_compute_gradient (Party_model self))
                            (fun r => Ok (fst r))) ;;
   noise <- Party_get_noise ;;
   let noisy_gradient := map (fun g => add g noise) gradient in
   encrypt_vector (Party_pubkey self) noisy_gradient)%se.

(** The model of a party after [c.model.gradient_step(gradient, eta)].
    The cast error that line 201 raises for an aggregate that phe decoded
    to Python integers too large for 64 bits is not modelled. *)
Definition Party_gradient_step (gradient : list num) (eta : num) (c : Party)
  : result Party :=
  bindR (Net_gradient_step gradient eta (Party_model c)) (fun r =>
  Ok {| Party_name := Party_name c;
        Party_model := snd r;
        Party_pubkey := Party_pubkey c |}).
End PartyMethods.

(** ** hybrid_learning (lines 232-277) and local_learning (lines 280-297) *)

Record Config `{Scalar} : Type := {
  n_clients : nat;
  key_length : nat;
  n_iter : nat;
  eta : num
}.

(** [['Hospital {}'.format(i) for i in range(1, n_clients + 1)]]. *)
Definition hospital_names (n : nat) : list string :=
  map (fun i => "Hospital " ++ NilEmpty.string_of_uint (Nat.to_uint i))%string
      (seq 1 n).

(** [zip(names, X, y)]. *)
Fixpoint zip3 {A B C} (a : list A) (b : list B) (c : list C) : list (A * B * C) :=
  match a, b, c with
  | x :: a', y :: b', z :: c' => (x, y, z) :: zip3 a' b' c'
  | _, _, _ => []
  end.

Section Learning.
Context `{Paillier}.

(** Lines 236-249: the server, then the parties. *)
Definition hybrid_setup (X : list ndarray2) (y : list (list num)) (config : Config)
  : SE Entropy (Server * list Party) :=
  (let names := hospital_names (n_clients config) in
   server <- Server_init (key_length config) (n_clients config) ;;
   let clients :=
     map (fun t => match t with
                   | (name, train_data, target_data) =>
                       Party_init name train_data target_data
                                  (Some (Server_pubkey server))
                   end)
         (zip3 names X y) in
   ret (server, clients))%se.

(** Lines 255-259: [asyncio.gather] of the parties' coroutines; none of
    them awaits, so they run one after the other in list order. *)
Definition gather_gradients (clients : list Party)
  : SE Entropy (list (list EncryptedNumber)) :=
  mapM Party_compute_partial_gradient clients.

(** Lines 261-264: what the server does with the list it is given. *)
Definition server_round (server : Server) (gradients : list (list EncryptedNumber))
  : result (list num) :=
  bindR (Server_aggregate_gradients server gradients) (fun aggregate =>
  Server_decrypt_gradient server aggregate).

(** One iteration of the loop of lines 254-271. *)
Definition hybrid_round (server : Server) (eta : num) (clients : list Party)
  : SE Entropy (list Party) :=
  (gradients <- gather_gradients clients ;;
   aggregate <- liftR (server_round server gradients) ;;
   liftR (mapR (Party_gradient_step aggregate eta) clients))%se.

Fixpoint hybrid_rounds (n : nat) (server : Server) (eta : num)
    (clients : list Party) : SE Entropy (list Party) :=
  match n with
  | O => ret clients
  | S n' => (clients' <- hybrid_round server eta clients ;;
             hybrid_rounds n' server eta clients')%se
  end.

(** Lines 273-277 and 293-297: the error each party reports. *)
Definition report_mse (X_test : ndarray2) (y_test : list num) (c : Party)
  : result (string * num) :=
  bindR (Net_predict X_test (Party_model c)) (fun r =>
  bindR (mean_square_error (fst r) y_test) (fun mse =>
  Ok (Party_name c, mse))).

Definition hybrid_learning (X : list ndarray2) (y : list (list num))
    (X_test : ndarray2) (y_test : list num) (config : Config)
  : SE Entropy (list Party * list (string * num)) :=
  (sc <- hybrid_setup X y config ;;
   clients <- hybrid_rounds (n_iter config) (fst sc) (eta config) (snd sc) ;;
   report <- liftR (mapR (report_mse X_test y_test) clients) ;;
   ret (clients, report))%se.

(** [clients.append(Party(names[i], X[i], y[i], None))] for [i] in
    [range(n_clients)]. *)
Definition local_setup (X : list ndarray2) (y : list (list num)) (config : Config)
  : result (list Party) :=
  let names := hospital_names (n_clients config) in
  mapR (fun i =>
          match nth_error names i, nth_error X i, nth_error y i with
          | Some name, Some Xi, Some yi => Ok (Party_init name Xi yi None)
          | _, _, _ => Raise (IndexError "list index out of range")
          end)
       (seq 0 (n_clients config)).

Definition local_learning (X : list ndarray2) (y : list (list num))
    (X_test : ndarray2) (y_test : list num) (config : Config)
  : result (list (string * num)) :=
  bindR (local_setup X y config) (fun clients =>
  mapR (fun c =>
          bindR (Net_fit (n_iter config) (eta config) (Party_model c)) (fun r =>
          report_mse X_test y_test
            {| Party_name := Party_name c;
               Party_model := snd r;
               Party_pubkey := Party_pubkey c |}))
       clients).
End Learning.

(** ** Instances used to evaluate the model *)

(** Exact rational arithmetic. *)
Definition Scalar_Qc : Scalar := {|
  num := Qc;
  zero := Q2Qc 0;
  one := Q2Qc 1;
  add := Qcplus;
  sub := Qcminus;
  mul := Qcmult;
  div := Qcdiv;
  opp := Qcopp;
  inv := Qcinv;
  of_nat := fun n => Q2Qc (inject_Z (Z.of_nat n));
  hundredth := Q2Qc (1 # 100)
|}.

(** Rationals with the IEEE-754 special values: what a [float64] can be,
    rounding and the sign of zero left out. *)
Inductive xnum : Type :=
| Fin (q : Q)
| PInf
| NInf
| NaN.

Definition is_finite (x : xnum) : bool :=
  match x with Fin _ => true | _ => false end.

Definition xinf (positive : bool) : xnum := if positive then PInf else NInf.

(** An infinity of sign [positive] times the finite [q]. *)
Definition xinf_scale (positive : bool) (q : Q) : xnum :=
  if Qeq_bool q 0 then NaN
  else if Qle_bool 0 q then xinf positive else xinf (negb positive).

Definition xopp (a : xnum) : xnum :=
  match a with
  | Fin q => Fin (Qred (- q))
  | PInf => NInf
  | NInf => PInf
  | NaN => NaN
  end.

Definition xadd (a b : xnum) : xnum :=
  match a, b with
  | NaN, _ | _, NaN => NaN
  | Fin p, Fin q => Fin (Qred (p + q))
  | PInf, NInf | NInf, PInf => NaN
  | PInf, _ | _, PInf => PInf
  | NInf, _ | _, NInf => NInf
  end.

Definition xsub (a b : xnum) : xnum := xadd a (xopp b).

Definition xmul (a b : xnum) : xnum :=
  match a, b with
  | NaN, _ | _, NaN => NaN
  | Fin p, Fin q => Fin (Qred (p * q))
  | PInf, Fin q | Fin q, PInf => xinf_scale true q
  | NInf, Fin q | Fin q, NInf => xinf_scale false q
  | PInf, PInf | NInf, NInf => PInf
  | PInf, NInf | NInf, PInf => NInf
  end.

Definition xdiv (a b : xnum) : xnum :=
  match a, b with
  | NaN, _ | _, NaN => NaN
  | Fin p, Fin q =>
      if Qeq_bool q 0 then xinf_scale true p else Fin (Qred (p / q))
  | Fin _, _ => Fin 0
  | PInf, Fin q => if Qle_bool 0 q then PInf else NInf
  | NInf, Fin q => if Qle_bool 0 q then NInf else PInf
  | _, _ => NaN
  end.

Definition Scalar_xnum : Scalar := {|
  num := xnum;
  zero := Fin 0;
  one := Fin 1;
  add := xadd;
  sub := xsub;
  mul := xmul;
  div := xdiv;
  opp := xopp;
  inv := xdiv (Fin 1);
  of_nat := fun n => Fin (inject_Z (Z.of_nat n));
  hundredth := Fin (1 # 100)
|}.

(** A linear masking scheme that is additively homomorphic: the ciphertext
    of [x] under key [k] with obfuscator [r] is [(x + k * r, r)].  It stands
    for phe wherever the model is run on concrete data. *)
Definition MaskCipher (S : Scalar) : @Paillier S := {|
  PublicKey := @num S;
  PrivateKey := @num S;
  EncryptedNumber := (@num S * @num S)%type;
  KeySeed := @num S;
  Obfuscator := @num S;
  generate_paillier_keypair := fun _ seed => (seed, seed);
  pk_encrypt := fun k r x => (add x (mul k r), r);
  sk_decrypt := fun k c => sub (fst c) (mul k (snd c));
  enc_add := fun a b => (add (fst a) (fst b), add (snd a) (snd b));
  enc_mul := fun a s => (mul (fst a) s, mul (snd a) s)
|}.

(** ** The formulas the properties refer to *)

Section Formulas.
Context `{Scalar}.

(** Column [j] of a matrix. *)
Definition column (j : nat) (M : ndarray2) : list num :=
  map (fun r => nth j r zero) (rows M).

Definition transpose (M : ndarray2) : ndarray2 :=
  {| ncols := length (rows M);
     rows := map (fun j => column j M) (seq 0 (ncols M)) |}.

(** The matrix-vector product [M v]. *)
Definition matvec (M : ndarray2) (v : list num) : list num :=
  map (fun r => inner r v) (rows M).

Definition vsub (u v : list num) : list num := zip_with sub u v.

Definition scale (c : num) (v : list num) : list num := map (mul c) v.

(** [(1/m) * X^T (X w - y)], [m] the number of rows of [X]. *)
Definition mse_gradient (X : ndarray2) (y w : list num) : list num :=
  scale (div one (of_nat (length (rows X))))
        (matvec (transpose X) (vsub (matvec X w) y)).

(** Coordinate [j] of [g_1 + ... + g_k]. *)
Definition coordinate_sum (j : nat) (gs : list (list num)) : num :=
  fold_right add zero (map (fun g => nth j g zero) gs).

(** [(g_1 + ... + g_k) / n], for vectors of length [D]. *)
Definition sum_over (n D : nat) (gs : list (list num)) : list num :=
  map (fun j => div (coordinate_sum j gs) (of_nat n)) (seq 0 D).

(** The element-wise average of [g_1 .. g_k]. *)
Definition average (D : nat) (gs : list (list num)) : list num :=
  sum_over (length gs) D gs.

(** The data of one party has the shape numpy expects: [X] is [m] by [D]
    with [m >= 1], and [y] has [m] entries. *)
Definition well_shaped (D : nat) (X : ndarray2) (y : list num) : Prop :=
  ncols X = D /\ Forall (fun r => length r = D) (rows X)
  /\ length y = length (rows X) /\ rows X <> [].
End Formulas.

(** ** What is assumed of phe

    The scheme is additively homomorphic and decryption inverts encryption
    under the key pair of one [generate_paillier_keypair] call; phe's
    fixed-point encoding error is left out, as rounding is. *)
Class AdditivelyHomomorphic `{Paillier} : Prop := {
  dec_enc : forall n_length seed r x,
    let keypair := generate_paillier_keypair n_length seed in
    sk_decrypt (snd keypair) (pk_encrypt (fst keypair) r x) = x;
  dec_add : forall sk a b,
    sk_decrypt sk (enc_add a b) = add (sk_decrypt sk a) (sk_decrypt sk b);
  dec_mul : forall sk a s,
    sk_decrypt sk (enc_mul a s) = mul (sk_decrypt sk a) s
}.

(** Under one public key, two ciphertexts of the same plaintext made with
    different obfuscators differ.  Paillier's encryption is a bijection
    from plaintext and obfuscator to ciphertext, so phe has this. *)
Definition obfuscator_injective `{Paillier} : Prop :=
  forall (pk : PublicKey) (r r' : Obfuscator) (x : num),
    pk_encrypt pk r x = pk_encrypt pk r' x -> r = r'.

(** The server's keys come from one key generation. *)
Definition key_pair_of `{Paillier} (server : Server) : Prop :=
  exists n_length seed,
    generate_paillier_keypair n_length seed
    = (Server_pubkey server, Server_privkey server).

(** [enc] is an element-wise encryption of the plaintext vector [g]. *)
Definition encrypts `{Paillier} (pk : PublicKey)
    (enc : list EncryptedNumber) (g : list num) : Prop :=
  Forall2 (fun c x => exists r, c = pk_encrypt pk r x) enc g.

(** ** Concrete data *)

Definition q (n d : positive) : Qc := Q2Qc (Zpos n # d).

Definition entropy_Qc : @Entropy Scalar_Qc (MaskCipher Scalar_Qc) :=
  @Build_Entropy Scalar_Qc (MaskCipher Scalar_Qc)
    (fun _ => q 1 2) 0
    (fun n => Q2Qc (inject_Z (Z.of_nat (S n)))) 0
    (fun _ => q 7 1) 0.

Definition X_a : @ndarray2 Scalar_Qc :=
  @Build_ndarray2 Scalar_Qc 2 [[q 1 1; q 1 1]; [q 2 1; q 1 1]].
Definition y_a : list Qc := [q 3 1; q 5 1].
Definition X_b : @ndarray2 Scalar_Qc :=
  @Build_ndarray2 Scalar_Qc 2 [[q 3 1; q 1 1]].
Definition y_b : list Qc := [q 7 1].
Definition X_c : @ndarray2 Scalar_Qc :=
  @Build_ndarray2 Scalar_Qc 2 [[q 4 1; q 1 1]; [q 5 1; q 1 1]; [q 6 1; q 1 1]].
Definition y_c : list Qc := [q 9 1; q 11 1; q 13 1].

Definition config_of (n kl it : nat) : @Config Scalar_Qc :=
  @Build_Config Scalar_Qc n kl it (q 1 100).

Definition server_3 : @Server Scalar_Qc (MaskCipher Scalar_Qc) :=
  @Build_Server Scalar_Qc (MaskCipher Scalar_Qc) (q 7 1) (q 7 1) 3.

Definition gradients_3 : list (list (@num Scalar_Qc)) :=
  [[q 1 1; q 2 1]; [q 3 1; q 4 1]; [q 5 1; q 6 1]].

Definition encrypted_3
  : list (list (@EncryptedNumber Scalar_Qc (MaskCipher Scalar_Qc))) :=
  map (map (@pk_encrypt Scalar_Qc (MaskCipher Scalar_Qc) (q 7 1) (q 2 1)))
      gradients_3.

(** The parties [hybrid_setup] builds around a given public key. *)
Definition parties_of `{Paillier} (pk : PublicKey) (n : nat)
    (X : list ndarray2) (y : list (list num)) : list Party :=
  map (fun t => Party_init (fst (fst t)) (snd (fst t)) (snd t) (Some pk))
      (zip3 (hospital_names n) X y).

(** A party that was given no training row: [get_data] yields such
    slices as soon as [n_clients] exceeds the number of training rows. *)
Definition X_empty : @ndarray2 Scalar_xnum := @Build_ndarray2 Scalar_xnum 1 [].
Definition y_empty : list (@num Scalar_xnum) := [].

Definition parties_3 : list (@Party Scalar_Qc (MaskCipher Scalar_Qc)) :=
  @parties_of Scalar_Qc (MaskCipher Scalar_Qc) (q 7 1) 3
    [X_a; X_b; X_c] [y_a; y_b; y_c].

(** The parties after [k] iterations of the training loop of
    [hybrid_learning] (lines 236-271). *)
Definition hybrid_run `{Paillier} (k : nat) (X : list ndarray2)
    (y : list (list num)) (config : Config) : SE Entropy (list Party) :=
  (sc <- hybrid_setup X y config ;;
   hybrid_rounds k (fst sc) (eta config) (snd sc))%se.

(** All parties hold the same weight vector. *)
Definition identical_weights `{Paillier} (clients : list Party) : Prop :=
  forall c1 c2, In c1 clients -> In c2 clients ->
    Net_weights (Party_model c1) = Net_weights (Party_model c2).

(** A party of a running session: well-shaped data, weights of the right
    length, and the server's public key. *)
Definition ready `{Paillier} (D : nat) (pk : PublicKey) (c : Party) : Prop :=
  well_shaped D (Net_X (Party_model c)) (Net_y (Party_model c))
  /\ length (Net_weights (Party_model c)) = D
  /\ Party_pubkey c = Some pk.

(** [v] is what party [c] submits in a round: an encryption under [pk] of
    its own gradient with some noise added to every coordinate. *)
Definition submission_of `{Paillier} (D : nat) (pk : PublicKey)
    (c : Party) (v : list EncryptedNumber) : Prop :=
  exists gradient noise,
    Net_compute_gradient (Party_model c) = Ok (gradient, Party_model c)
    /\ length gradient = D
    /\ encrypts pk v (map (fun g => add g noise) gradient).

(** ** get_data, the split among the clients (lines 111-120)

    What comes before in [get_data] (loading the dataset, shuffling it and
    drawing the test rows) is sklearn and numpy's random generator; the
    split starts from the training rows [X_train], [y_train]. *)

(** The Python slice [l[a:b]] for [0 <= a]. *)
Definition py_slice {A} (a b : nat) (l : list A) : list A :=
  firstn (b - a) (skipn a l).

(** [step = int(X_train.shape[0] / n_clients)], then the slices
    [[step * c : step * (c + 1)]] for [c] in [range(n_clients)]. *)
Definition get_data_split `{Scalar} (X_train : ndarray2) (y_train : list num)
    (n_clients : nat) : result (list ndarray2 * list (list num)) :=
  if n_clients =? 0 then Raise (ZeroDivisionError "division by zero")
  else
    let step := length (rows X_train) / n_clients in
    Ok (map (fun c => {| ncols := ncols X_train;
                         rows := py_slice (step * c) (step * (c + 1))
                                          (rows X_train) |})
            (seq 0 n_clients),
        map (fun c => py_slice (step * c) (step * (c + 1)) y_train)
            (seq 0 n_clients)).

(** ** get_data as a whole (lines 86-120)

    [load_diabetes] and numpy's random generator are outside the
    repository: the dataset ([data], [target]), the permutation that
    [np.random.permutation] returns and the sample that [np.random.choice]
    returns (when it returns one) are arguments. *)

Definition test_size : nat := 50.

(** Integer-array indexing [l[idx]]. *)
Definition take {A} (idx : list nat) (l : list A) : result (list A) :=
  mapR (fun i => match nth_error l i with
                 | Some a => Ok a
                 | None => Raise (IndexError "index is out of bounds for axis 0")
                 end)
       idx.

(** [l[mask]] for the boolean mask of the length of [l] that is [False]
    exactly at the positions [idx]. *)
Definition mask_out {A} (idx : list nat) (l : list A) : list A :=
  flat_map (fun i => if existsb (Nat.eqb i) idx then []
                     else match nth_error l i with
                          | Some a => [a]
                          | None => []
                          end)
           (seq 0 (length l)).

(** [np.c_[X, np.ones(X.shape[0])]]. *)
Definition add_intercept `{Scalar} (X : ndarray2) : ndarray2 :=
  {| ncols := ncols X + 1;
     rows := map (fun r => (r ++ [one])%list) (rows X) |}.

Definition get_data `{Scalar} (data : ndarray2) (target : list num)
    (perm test_idx : list nat) (n_clients : nat)
  : result (list ndarray2 * list (list num) * ndarray2 * list num) :=
  let X := add_intercept data in
  bindR (take perm (rows X)) (fun X_rows =>
  bindR (take perm target) (fun y =>
  if length X_rows <? test_size
  then Raise (ValueError
    "Cannot take a larger sample than population when 'replace=False'")
  else
    bindR (take test_idx X_rows) (fun X_test =>
    bindR (take test_idx y) (fun y_test =>
    let X_train := mask_out test_idx X_rows in
    let y_train := mask_out test_idx y in
    bindR (get_data_split {| ncols := ncols X; rows := X_train |}
                          y_train n_clients) (fun split =>
    Ok (fst split, snd split,
        {| ncols := ncols X; rows := X_test |}, y_test)))))).

(** The entries of [l] at the positions [idx], in that order. *)
Definition gather {A} (d : A) (idx : list nat) (l : list A) : list A :=
  map (fun i => nth i l d) idx.

(** The positions below [m] that are not in [idx], in increasing order. *)
Definition kept (idx : list nat) (m : nat) : list nat :=
  filter (fun i => negb (existsb (Nat.eqb i) idx)) (seq 0 m).

(** A dataset of 60 samples with one feature. *)
Definition data60 : @ndarray2 Scalar_Qc :=
  @Build_ndarray2 Scalar_Qc 1
    (map (fun i => [Q2Qc (inject_Z (Z.of_nat i))]) (seq 0 60)).
Definition target60 : list (@num Scalar_Qc) :=
  map (fun i => Q2Qc (inject_Z (Z.of_nat (2 * i)))) (seq 0 60).

(** A dataset of 60 samples whose feature is 0 or 1/2, with target
    [2 x + 1]: gradient descent with the step of the main program stays
    bounded on it. *)
Definition data_half : @ndarray2 Scalar_Qc :=
  @Build_ndarray2 Scalar_Qc 1
    (map (fun i => [if Nat.even i then Q2Qc 0 else q 1 2]) (seq 0 60)).
Definition target_half : list (@num Scalar_Qc) :=
  map (fun i => if Nat.even i then q 1 1 else q 2 1) (seq 0 60).

(** ** The main program (lines 300-315) *)

(** The [config] of the main program; [1.5] is [3 / 2]. *)
Definition main_config `{Scalar} : Config :=
  {| n_clients := 5; key_length := 1024; n_iter := 30;
     eta := div (of_nat 3) (of_nat 2) |}.

(** [get_data], then [local_learning], then [hybrid_learning]; the value
    is what the two learners report. *)
Definition main `{Paillier} (data : ndarray2) (target : list num)
    (perm test_idx : list nat)
  : SE Entropy (list (string * num) * list (string * num)) :=
  (d <- liftR (get_data data target perm test_idx (n_clients main_config)) ;;
   let X := fst (fst (fst d)) in
   let y := snd (fst (fst d)) in
   let X_test := snd (fst d) in
   let y_test := snd d in
   local <- liftR (local_learning X y X_test y_test main_config) ;;
   hybrid <- hybrid_learning X y X_test y_test main_config ;;
   ret (local, snd hybrid))%se.

(** ** Further formulas *)

(** [1/m * sum_i (y_pred_i - y_i)^2], the docstring of
    [mean_square_error]. *)
Definition mse_docstring `{Scalar} (y_pred y : list num) : num :=
  div (fold_right add zero
         (map (fun p => mul (sub (fst p) (snd p)) (sub (fst p) (snd p)))
              (combine y_pred y)))
      (of_nat (length y)).

(** One model holding the rows of all the given models, stacked. *)
Definition pooled `{Scalar} (D : nat) (w : list num) (nets : list Net) : Net :=
  {| Net_X := {| ncols := D;
                 rows := concat (map (fun n => rows (Net_X n)) nets) |};
     Net_y := concat (map Net_y nets);
     Net_weights := w |}.

(** [delta.dot(X)] as [compute_gradient] computes it, before the division
    by the number of rows. *)
Definition gradient_numerator `{Scalar} (D : nat) (net : Net) : list num :=
  vecmat D
    (zip_with sub (map (fun r => inner r (Net_weights net)) (rows (Net_X net)))
                  (Net_y net))
    (rows (Net_X net)).

(** The models of equally many rows [m] that share the weights [w]. *)
Definition shard `{Scalar} (D m : nat) (w : list num) (net : Net) : Prop :=
  well_shaped D (Net_X net) (Net_y net)
  /\ length (rows (Net_X net)) = m
  /\ Net_weights net = w.

(** The ring of the module docstring: the first vector, to which each
    further party adds its own with [sum_encrypted_vectors]. *)
Definition ring_sum `{Paillier} (g : list EncryptedNumber)
    (gs : list (list EncryptedNumber)) : result (list EncryptedNumber) :=
  fold_left (fun acc v => bindR acc (fun a => sum_encrypted_vectors a v))
            gs (Ok g).

(** Two parties are the same but for their weights. *)
Definition same_party_data `{Paillier} (c c' : Party) : Prop :=
  Party_name c' = Party_name c
  /\ Net_X (Party_model c') = Net_X (Party_model c)
  /\ Net_y (Party_model c') = Net_y (Party_model c)
  /\ Party_pubkey c' = Party_pubkey c.

(** A training matrix of five rows and a test set of two. *)
Definition X_train5 : @ndarray2 Scalar_Qc :=
  @Build_ndarray2 Scalar_Qc 2
    [[q 1 1; q 1 1]; [q 2 1; q 1 1]; [q 3 1; q 1 1]; [q 4 1; q 1 1];
     [q 5 1; q 1 1]].
Definition y_train5 : list (@num Scalar_Qc) :=
  [q 3 1; q 5 1; q 7 1; q 9 1; q 11 1].
Definition X_test2 : @ndarray2 Scalar_Qc :=
  @Build_ndarray2 Scalar_Qc 2 [[q 7 1; q 1 1]; [q 8 1; q 1 1]].
Definition y_test2 : list (@num Scalar_Qc) := [q 15 1; q 17 1].

(** * Properties *)

(** ** Generic facts about the monads and numpy helpers *)

Lemma zip_with_length {A B C} (f : A -> B -> C) x y :
  length x = length y -> length (zip_with f x y) = length x.
Proof.
  revert y; induction x as [|a x IH]; intros [|b y]; simpl; intros E;
    try discriminate; auto.
Qed.

Lemma broadcast_same_length {A B C} (f : A -> B -> C) x y :
  length x = length y -> broadcast f x y = Ok (zip_with f x y).
Proof.
  intros E. unfold broadcast. rewrite E, Nat.eqb_refl. reflexivity.
Qed.

Lemma broadcast_inplace_same_length {A B} (f : A -> B -> A) x y :
  length x = length y -> broadcast_inplace f x y = Ok (zip_with f x y).
Proof.
  intros E. unfold broadcast_inplace. rewrite E, Nat.eqb_refl. reflexivity.
Qed.

Lemma bind_Ok {S A B} (m : SE S A) (k : A -> SE S B) s a s' :
  m s = Ok (a, s') -> bind m k s = k a s'.
Proof. unfold bind. intros ->. reflexivity. Qed.

Lemma bind_Ok_inv {S A B} (m : SE S A) (k : A -> SE S B) s b s2 :
  bind m k s = Ok (b, s2) ->
  exists a s1, m s = Ok (a, s1) /\ k a s1 = Ok (b, s2).
Proof.
  unfold bind. destruct (m s) as [[a s1]|]; [|discriminate].
  intros E. exists a, s1. auto.
Qed.

Lemma completes_Ok {A} (r : result A) :
  completes r = true -> exists a, r = Ok a.
Proof.
  destruct r as [a|ex]; [|discriminate]. intros _. exists a. reflexivity.
Qed.

Lemma liftR_Ok_inv {S A} (r : result A) (a : A) (s s' : S) :
  liftR r s = Ok (a, s') -> r = Ok a /\ s' = s.
Proof.
  unfold liftR. destruct r as [x|ex]; [|discriminate].
  intros E. injection E as <- <-. split; reflexivity.
Qed.

Lemma mapR_Forall2 {A B} (f : A -> result B) : forall xs ys,
  mapR f xs = Ok ys -> Forall2 (fun x y => f x = Ok y) xs ys.
Proof.
  induction xs as [|x xs IH]; intros ys E; simpl in E.
  - injection E as <-. constructor.
  - unfold bindR in E. destruct (f x) as [b|ex] eqn:Fx; [|discriminate].
    destruct (mapR f xs) as [bs|ex]; [|discriminate].
    injection E as <-. constructor; [exact Fx|]. apply IH. reflexivity.
Qed.

Lemma Forall2_In_r {A B} (P : A -> B -> Prop) (xs : list A) (ys : list B) :
  Forall2 P xs ys ->
  forall y, In y ys -> exists x, In x xs /\ P x y.
Proof.
  induction 1 as [|a b xs ys Hab _ IH]; intros y0 Hin; [destruct Hin|].
  destruct Hin as [<-|Hin].
  - exists a. split; [left; reflexivity | exact Hab].
  - destruct (IH y0 Hin) as (x & Hx & Px).
    exists x. split; [right; exact Hx | exact Px].
Qed.

Lemma mapR_length {A B} (f : A -> result B) (xs : list A) (ys : list B) :
  mapR f xs = Ok ys -> length ys = length xs.
Proof.
  intros E. symmetry. eapply Forall2_length, mapR_Forall2, E.
Qed.

Lemma liftR_Ok {S A} (r : result A) (a : A) (s : S) :
  r = Ok a -> liftR r s = Ok (a, s).
Proof. intros ->. reflexivity. Qed.

(** ** sum_encrypted_vectors *)

(** C5. Summing two encrypted vectors of unequal length raises the
    size-mismatch error (the [ValueError] of line 138) instead of
    truncating, padding or broadcasting; for vectors of equal length the
    result is the element-wise ciphertext sum. *)
Theorem sum_encrypted_vectors_sizes `{Paillier} (x y : list EncryptedNumber) :
  (length x <> length y ->
   sum_encrypted_vectors x y
   = Raise (ValueError "Encrypted vectors must have the same size"))
  /\ (length x = length y ->
      sum_encrypted_vectors x y = Ok (zip_with enc_add x y)
      /\ length (zip_with enc_add x y) = length x).
Proof.
  unfold sum_encrypted_vectors. split; intros E.
  - apply Nat.eqb_neq in E. rewrite E. reflexivity.
  - rewrite (proj2 (Nat.eqb_eq _ _) E). simpl. split.
    + apply broadcast_same_length, E.
    + apply zip_with_length, E.
Qed.

Lemma sum_encrypted_vectors_sizes_witness :
  let c : @EncryptedNumber _ (MaskCipher Scalar_Qc) := (q 1 1, q 2 1) in
  sum_encrypted_vectors (repeat c 10) (repeat c 11)
  = Raise (ValueError "Encrypted vectors must have the same size")
  /\ sum_encrypted_vectors (repeat c 10) (repeat c 10)
     = Ok (zip_with (@enc_add _ (MaskCipher Scalar_Qc)) (repeat c 10) (repeat c 10)).
Proof.
  intros c. split.
  - apply (proj1 (sum_encrypted_vectors_sizes (repeat c 10) (repeat c 11))).
    simpl. lia.
  - apply (proj2 (sum_encrypted_vectors_sizes (repeat c 10) (repeat c 10))).
    reflexivity.
Defined.

(** ** Session start *)

Lemma zip3_length {A B C} (a : list A) (b : list B) (c : list C) :
  length (zip3 a b c) = Nat.min (length a) (Nat.min (length b) (length c)).
Proof.
  revert b c; induction a as [|x a IH]; intros [|y b] [|z c]; simpl; auto.
Qed.

Lemma hospital_names_length n : length (hospital_names n) = n.
Proof. unfold hospital_names. rewrite length_map, length_seq. reflexivity. Qed.

Lemma hybrid_setup_run `{Paillier} X y config e :
  exists server e',
    hybrid_setup X y config e
    = Ok ((server, parties_of (Server_pubkey server) (n_clients config) X y), e')
    /\ Server_init (key_length config) (n_clients config) e = Ok (server, e').
Proof.
  unfold hybrid_setup, Server_init, bind, ret, draw_keyseed, parties_of.
  simpl. eexists; eexists. split; [|reflexivity]. simpl.
  do 2 f_equal. f_equal. apply map_ext. intros [[n X0] y0]. reflexivity.
Qed.

(** C2 (as amended). Session start makes no check of the number of
    parties: for every configured [n_clients], also below 3, it returns a
    server and [min(n_clients, len(X), len(y))] parties. *)
Theorem hybrid_setup_any_party_count `{Paillier} X y config e :
  exists server clients e',
    hybrid_setup X y config e = Ok ((server, clients), e')
    /\ Server_n_clients server = n_clients config
    /\ length clients
       = Nat.min (n_clients config) (Nat.min (length X) (length y)).
Proof.
  destruct (hybrid_setup_run X y config e) as (server & e' & E & I).
  exists server, (parties_of (Server_pubkey server) (n_clients config) X y), e'.
  split; [exact E|]. split.
  - unfold Server_init, bind, ret, draw_keyseed in I. simpl in I.
    injection I as <- _. reflexivity.
  - unfold parties_of. rewrite length_map, zip3_length, hospital_names_length.
    reflexivity.
Qed.

(** C2, the claim as stated fails: a session with two parties starts. *)
Lemma two_parties_session_starts :
  exists server clients e',
    @hybrid_setup Scalar_Qc (MaskCipher Scalar_Qc)
      [X_a; X_b] [y_a; y_b] (config_of 2 1024 1) entropy_Qc
    = Ok ((server, clients), e')
    /\ length clients = 2.
Proof.
  destruct (@hybrid_setup_run Scalar_Qc (MaskCipher Scalar_Qc)
              [X_a; X_b] [y_a; y_b] (config_of 2 1024 1) entropy_Qc)
    as (server & e' & E & _).
  do 3 eexists. split; [exact E | reflexivity].
Qed.

(** C6 (as amended). Server construction makes no check of the key
    strength: for every requested key length it keeps the key pair that
    [generate_paillier_keypair] yields for that length, and session start
    goes on to instantiate the parties with that public key. *)
Theorem Server_init_any_key_length `{Paillier} X y config e :
  let keypair := generate_paillier_keypair (key_length config)
                   (phe_keyseed e (phe_keyseed_pos e)) in
  exists server clients e',
    hybrid_setup X y config e = Ok ((server, clients), e')
    /\ Server_pubkey server = fst keypair
    /\ Server_privkey server = snd keypair
    /\ clients = parties_of (fst keypair) (n_clients config) X y.
Proof.
  intros keypair.
  destruct (hybrid_setup_run X y config e) as (server & e' & E & I).
  unfold Server_init, bind, ret, draw_keyseed in I. simpl in I.
  injection I as <- _.
  do 3 eexists. split; [exact E|]. simpl. auto.
Qed.

(** C6, the claim as stated fails: a 512-bit key is accepted and the three
    parties are instantiated. *)
Lemma short_key_session_starts :
  exists server clients e',
    @hybrid_setup Scalar_Qc (MaskCipher Scalar_Qc)
      [X_a; X_b; X_c] [y_a; y_b; y_c] (config_of 3 512 1) entropy_Qc
    = Ok ((server, clients), e')
    /\ length clients = 3.
Proof.
  destruct (@hybrid_setup_run Scalar_Qc (MaskCipher Scalar_Qc)
              [X_a; X_b; X_c] [y_a; y_b; y_c] (config_of 3 512 1) entropy_Qc)
    as (server & e' & E & _).
  do 3 eexists. split; [exact E | reflexivity].
Qed.

(** ** The local gradient *)

Lemma zip_with_map {A B C D} (f : B -> C -> D) (g : A -> B) (h : A -> C) l :
  zip_with f (map g l) (map h l) = map (fun x => f (g x) (h x)) l.
Proof. induction l as [|a l IH]; simpl; [|rewrite IH]; reflexivity. Qed.

Lemma list_as_map_nth {A} (d : A) (r : list A) :
  r = map (fun j => nth j r d) (seq 0 (length r)).
Proof.
  induction r as [|a r IH]; simpl; [reflexivity|].
  f_equal. rewrite <- seq_shift, map_map. exact IH.
Qed.

Section Gradient.
Context `{Scalar}.
Hypothesis Fth : field_theory zero one add mul sub opp div inv (@eq num).

Add Field num_field : Fth.

Lemma vecmat_columns (D : nat) (rs : list (list num)) : forall d,
  Forall (fun r => length r = D) rs -> length d = length rs ->
  vecmat D d rs
  = map (fun j => inner (map (fun r => nth j r zero) rs) d) (seq 0 D).
Proof.
  induction rs as [|r rs IH]; intros [|a d] Hrs Hd; simpl in Hd;
    try discriminate.
  - simpl. rewrite map_const, length_seq. reflexivity.
  - apply Forall_cons_iff in Hrs as [Hr Hrs'].
    simpl. rewrite (IH d Hrs') by congruence.
    rewrite (list_as_map_nth zero r) at 1. rewrite map_map, Hr.
    rewrite zip_with_map. apply map_ext. intros j. f_equal. ring.
Qed.

Lemma Net_compute_gradient_run (net : Net) (D : nat) :
  well_shaped D (Net_X net) (Net_y net) ->
  length (Net_weights net) = D ->
  Net_compute_gradient net
  = Ok (map (fun e => div e (of_nat (length (rows (Net_X net)))))
            (vecmat D (zip_with sub (map (fun r => inner r (Net_weights net))
                                         (rows (Net_X net)))
                                    (Net_y net))
                    (rows (Net_X net))),
        net).
Proof.
  intros (Hc & Hr & Hy & _) Hw.
  unfold Net_compute_gradient, Net_predict, bind, get, liftR, ret, dot_mv.
  rewrite Hc, Hw, Nat.eqb_refl.
  rewrite broadcast_same_length by (rewrite length_map; congruence).
  unfold dot_vm.
  rewrite zip_with_length by (rewrite length_map; congruence).
  rewrite length_map, Nat.eqb_refl, Hc. reflexivity.
Qed.

(** C7. For a party whose data [X] ([m] rows) and [y] are well shaped,
    [compute_gradient] returns [(1/m) * X^T (X w - y)] and leaves the
    model as it was; its only input is the party's own model, that is its
    own rows, targets and weights. *)
Theorem Net_compute_gradient_formula (net : Net) (D : nat) :
  well_shaped D (Net_X net) (Net_y net) ->
  length (Net_weights net) = D ->
  Net_compute_gradient net
  = Ok (mse_gradient (Net_X net) (Net_y net) (Net_weights net), net).
Proof.
  intros Hs Hw. rewrite (@Net_compute_gradient_run net D Hs Hw).
  destruct Hs as (Hc & Hr & Hy & _).
  do 2 f_equal.
  unfold mse_gradient, scale, matvec, transpose, column, vsub. simpl.
  rewrite vecmat_columns;
    [|exact Hr|rewrite zip_with_length; rewrite length_map; congruence].
  rewrite Hc, !map_map. apply map_ext. intros j.
  rewrite !(Fdiv_def Fth). ring.
Qed.
End Gradient.

Lemma Net_compute_gradient_formula_witness :
  @Net_compute_gradient Scalar_Qc (Net_init X_a y_a)
  = Ok (mse_gradient X_a y_a (@np_zeros Scalar_Qc 2), Net_init X_a y_a).
Proof.
  apply (@Net_compute_gradient_formula Scalar_Qc Qcft (Net_init X_a y_a) 2).
  - repeat split; try discriminate; repeat constructor.
  - reflexivity.
Defined.

(** ** Aggregation at the server *)

Lemma nth_zip_with {A B C} (f : A -> B -> C) da db dc x : forall y j,
  length x = length y -> j < length x ->
  nth j (zip_with f x y) dc = f (nth j x da) (nth j y db).
Proof.
  induction x as [|a x IH]; intros [|b y] j E L; simpl in *;
    try discriminate; try lia.
  destruct j as [|j]; [reflexivity|]. apply IH; lia.
Qed.

Lemma map_zip_with {A B} (fa : A -> A -> A) (fb : B -> B -> B) (val : A -> B) :
  (forall a b, val (fa a b) = fb (val a) (val b)) ->
  forall x y, map val (zip_with fa x y) = zip_with fb (map val x) (map val y).
Proof.
  intros Hom. induction x as [|a x IH]; intros [|b y]; simpl; auto.
  rewrite Hom, IH. reflexivity.
Qed.

Lemma map_fold_left_zip_with {A B} (fa : A -> A -> A) (fb : B -> B -> B)
    (val : A -> B) :
  (forall a b, val (fa a b) = fb (val a) (val b)) ->
  forall gs g,
    map val (fold_left (zip_with fa) gs g)
    = fold_left (zip_with fb) (map (map val) gs) (map val g).
Proof.
  intros Hom. induction gs as [|v gs IH]; intros g; simpl; [reflexivity|].
  rewrite IH, (map_zip_with _ _ _ Hom). reflexivity.
Qed.

Lemma fold_left_zip_with_length {A} (f : A -> A -> A) D gs : forall g,
  Forall (fun v => length v = D) (g :: gs) ->
  length (fold_left (zip_with f) gs g) = D.
Proof.
  induction gs as [|v gs IH]; intros g Hall.
  - apply Forall_cons_iff in Hall as [Hg _]. exact Hg.
  - apply Forall_cons_iff in Hall as [Hg Hall].
    apply Forall_cons_iff in Hall as [Hv Hall].
    simpl. apply IH. constructor; [|exact Hall].
    rewrite zip_with_length; congruence.
Qed.

Lemma mapR_total {A B} (f : A -> result B) (h : A -> B) v :
  (forall a, f a = Ok (h a)) -> mapR f v = Ok (map h v).
Proof.
  intros E. induction v as [|a v IH]; simpl; [reflexivity|].
  rewrite E, IH. reflexivity.
Qed.

Lemma np_sum_axis0_run `{Paillier} {A} `{NpElem A} D (g : list A) gs :
  Forall (fun v => length v = D) (g :: gs) ->
  np_sum_axis0 (g :: gs) = Ok (np_array (fold_left (zip_with el_add) gs g)).
Proof.
  intros Hall. apply Forall_cons_iff in Hall as [Hg Hall].
  unfold np_sum_axis0.
  replace (forallb (fun v => length v =? length g) gs) with true; [reflexivity|].
  symmetry. apply forallb_forall. intros v Hv.
  rewrite Forall_forall in Hall. apply Nat.eqb_eq.
  rewrite (Hall v Hv). congruence.
Qed.

Section Aggregation.
Context `{Paillier}.
Hypothesis Fth : field_theory zero one add mul sub opp div inv (@eq num).

Add Field num_field_agg : Fth.

Lemma fold_left_coordinates (D : nat) (gs : list (list num)) : forall g,
  Forall (fun v => length v = D) (g :: gs) ->
  fold_left (zip_with add) gs g
  = map (fun j => coordinate_sum j (g :: gs)) (seq 0 D).
Proof.
  induction gs as [|v gs IH]; intros g Hall.
  - apply Forall_cons_iff in Hall as [Hg _]. simpl.
    rewrite (list_as_map_nth zero g) at 1. rewrite Hg.
    apply map_ext. intros j. unfold coordinate_sum. simpl. ring.
  - apply Forall_cons_iff in Hall as [Hg Hall].
    apply Forall_cons_iff in Hall as [Hv Hall].
    simpl. rewrite IH.
    + apply map_ext_in. intros j Hj. apply in_seq in Hj.
      unfold coordinate_sum. simpl.
      rewrite (@nth_zip_with _ _ _ add zero zero zero g v j) by lia. ring.
    + constructor; [|exact Hall]. rewrite zip_with_length; congruence.
Qed.

(** The aggregate of a non-empty list of equal-length vectors whose
    elements are read through an additive valuation [val]. *)
Lemma Server_aggregate_gradients_val {A} `{NpElem A}
    (val : A -> num) (dv : A -> A) (self : Server) D (g : list A) gs :
  (forall a b, val (el_add a b) = add (val a) (val b)) ->
  (forall a, el_truediv a (Server_n_clients self) = Ok (dv a)) ->
  (forall a, val (dv a) = div (val a) (of_nat (Server_n_clients self))) ->
  Forall (fun v => length v = D) (g :: gs) ->
  exists v,
    Server_aggregate_gradients self (g :: gs) = Ok (np_array v)
    /\ map val v
       = sum_over (Server_n_clients self) D (map (map val) (g :: gs)).
Proof.
  intros Hadd Hdiv Hval Hall.
  exists (map dv (fold_left (zip_with el_add) gs g)). split.
  - unfold Server_aggregate_gradients.
    rewrite (np_sum_axis0_run Hall). simpl.
    rewrite (mapR_total _ dv _ Hdiv). reflexivity.
  - rewrite map_map. rewrite (map_ext _ _ Hval).
    rewrite <- (map_map val (fun x => div x (of_nat (Server_n_clients self)))).
    rewrite (map_fold_left_zip_with _ _ _ Hadd).
    rewrite (@fold_left_coordinates D).
    + unfold sum_over. rewrite map_map. reflexivity.
    + change (Forall (fun v => length v = D) (map (map val) (g :: gs))).
      apply Forall_map. eapply Forall_impl; [|exact Hall].
      intros v Hv. simpl. rewrite length_map. exact Hv.
Qed.

Lemma aggregate_plain (self : Server) D (gs : list (list num)) :
  gs <> [] -> Forall (fun v => length v = D) gs ->
  Server_aggregate_gradients self gs
  = Ok (np_array (sum_over (Server_n_clients self) D gs)).
Proof.
  intros Hne Hall. destruct gs as [|g gs]; [congruence|].
  destruct (@Server_aggregate_gradients_val num _ (fun x => x)
              (fun x => div x (of_nat (Server_n_clients self)))
              self D g gs) as (v & E & Hv); auto.
  rewrite E. rewrite map_id in Hv. rewrite Hv.
  assert (Hid : forall l : list (list num), map (map (fun x => x)) l = l).
  { induction l as [|a l IH]; simpl; [|rewrite map_id, IH]; reflexivity. }
  rewrite Hid. reflexivity.
Qed.

Context {Hom : AdditivelyHomomorphic}.

Lemma aggregate_encrypted (self : Server) D
    (encs : list (list EncryptedNumber)) :
  Server_n_clients self <> 0 ->
  encs <> [] -> Forall (fun v => length v = D) encs ->
  server_round self encs
  = Ok (sum_over (Server_n_clients self) D
          (map (map (sk_decrypt (Server_privkey self))) encs)).
Proof.
  intros Hn Hne Hall. destruct encs as [|g gs]; [congruence|].
  destruct (@Server_aggregate_gradients_val EncryptedNumber _
              (sk_decrypt (Server_privkey self))
              (fun c => enc_mul c (div one (of_nat (Server_n_clients self))))
              self D g gs) as (v & E & Hv); auto.
  - apply dec_add.
  - intros a. simpl. apply Nat.eqb_neq in Hn. rewrite Hn. reflexivity.
  - intros a. rewrite dec_mul. rewrite !(Fdiv_def Fth). ring.
  - unfold server_round. rewrite E. simpl. rewrite Hv. reflexivity.
Qed.

Lemma encrypts_decrypt (server : Server) enc g :
  key_pair_of server ->
  encrypts (Server_pubkey server) enc g ->
  map (sk_decrypt (Server_privkey server)) enc = g
  /\ length enc = length g.
Proof.
  intros (nl & seed & K) E. induction E as [|c x enc g (r & ->) _ [IH1 IH2]].
  - split; reflexivity.
  - simpl. rewrite IH1, IH2. split; [|reflexivity]. f_equal.
    pose proof (dec_enc nl seed r x) as L. simpl in L.
    rewrite K in L. exact L.
Qed.
Lemma encrypts_all (server : Server) D encs : forall gs,
  key_pair_of server ->
  Forall (fun g => length g = D) gs ->
  Forall2 (encrypts (Server_pubkey server)) encs gs ->
  map (map (sk_decrypt (Server_privkey server))) encs = gs
  /\ Forall (fun v => length v = D) encs.
Proof.
  intros gs K Hall E. induction E as [|enc g encs gs E1 _ IH].
  - split; [reflexivity|constructor].
  - apply Forall_cons_iff in Hall as [Hg Hall].
    destruct (IH Hall) as [IH1 IH2].
    destruct (encrypts_decrypt K E1) as [E2 E3].
    simpl. rewrite E2, IH1. split; [reflexivity|].
    constructor; [congruence|exact IH2].
Qed.

(** C3. With [N >= 3] parties, each submitting an element-wise encryption
    of a gradient vector [g_i] of length [D], the plaintext vector the
    server produces in a round (lines 261-264) is the element-wise
    average [(g_1 + ... + g_N) / N], in exact arithmetic. *)
Theorem server_round_average (server : Server) (N D : nat)
    (gs : list (list num)) (encs : list (list EncryptedNumber)) :
  3 <= N ->
  key_pair_of server ->
  Server_n_clients server = N ->
  length gs = N ->
  Forall (fun g => length g = D) gs ->
  Forall2 (encrypts (Server_pubkey server)) encs gs ->
  server_round server encs = Ok (average D gs).
Proof.
  intros HN K Hn Hk Hall E.
  destruct (encrypts_all K Hall E) as [Hdec Hlen].
  rewrite (@aggregate_encrypted server D encs); [| lia | | exact Hlen].
  - rewrite Hdec, Hn, <- Hk. reflexivity.
  - intros ->. inversion E as [Hgs|]. subst gs. simpl in Hk. lia.
Qed.

(** C10. For [k >= 1] vectors of equal length the result of
    [aggregate_gradients] is their element-wise sum divided by the
    [n_clients] the server was built with, whatever [k] is; this is the
    true average scaled by [k / n_clients].  The same holds, after
    decryption, when the vectors are passed encrypted. *)
Theorem Server_aggregate_gradients_divides_by_n_clients
    (self : Server) (D : nat) (gs : list (list num)) :
  (forall k, k <> 0 -> of_nat k <> zero) ->
  gs <> [] ->
  Forall (fun g => length g = D) gs ->
  Server_aggregate_gradients self gs
  = Ok (np_array (sum_over (Server_n_clients self) D gs))
  /\ sum_over (Server_n_clients self) D gs
     = scale (div (of_nat (length gs)) (of_nat (Server_n_clients self)))
             (average D gs)
  /\ (forall encs,
        Server_n_clients self <> 0 ->
        key_pair_of self ->
        Forall2 (encrypts (Server_pubkey self)) encs gs ->
        server_round self encs
        = Ok (sum_over (Server_n_clients self) D gs)).
Proof.
  intros Hchar Hne Hall. split; [|split].
  - apply aggregate_plain; assumption.
  - unfold average, sum_over, scale. rewrite map_map.
    apply map_ext. intros j. rewrite !(Fdiv_def Fth).
    assert (Hk : of_nat (length gs) <> zero).
    { apply Hchar. destruct gs; [congruence|discriminate]. }
    pose proof (Finv_l Fth _ Hk) as L.
    transitivity
      (mul (mul (coordinate_sum j gs) (inv (of_nat (Server_n_clients self))))
           (mul (inv (of_nat (length gs))) (of_nat (length gs)))).
    + rewrite L. ring.
    + ring.
  - intros encs Hn K E.
    destruct (encrypts_all K Hall E) as [Hdec Hlen].
    rewrite (@aggregate_encrypted self D encs); [| exact Hn | | exact Hlen].
    + rewrite Hdec. reflexivity.
    + intros ->. inversion E; subst. congruence.
Qed.
End Aggregation.

Lemma MaskCipher_Qc_homomorphic :
  @AdditivelyHomomorphic Scalar_Qc (MaskCipher Scalar_Qc).
Proof. constructor; intros; simpl; ring. Qed.

Lemma of_nat_Qc_nonzero (k : nat) : k <> 0 -> @of_nat Scalar_Qc k <> @zero Scalar_Qc.
Proof.
  intros Hk E. simpl in E. apply Q2Qc_eq_iff in E.
  unfold Qeq in E. simpl in E. lia.
Qed.

Lemma server_3_keys : key_pair_of server_3.
Proof. exists 1024, (q 7 1). reflexivity. Qed.

Lemma encrypted_3_encrypts :
  Forall2 (@encrypts Scalar_Qc (MaskCipher Scalar_Qc) (Server_pubkey server_3))
          encrypted_3 gradients_3.
Proof.
  repeat constructor; exists (q 2 1); reflexivity.
Qed.

Lemma server_round_average_witness :
  server_round server_3 encrypted_3 = Ok (average 2 gradients_3).
Proof.
  apply (@server_round_average Scalar_Qc (MaskCipher Scalar_Qc) Qcft
           MaskCipher_Qc_homomorphic server_3 3 2 gradients_3 encrypted_3).
  - lia.
  - exact server_3_keys.
  - reflexivity.
  - reflexivity.
  - repeat constructor.
  - exact encrypted_3_encrypts.
Defined.

Lemma Server_aggregate_gradients_divides_by_n_clients_witness :
  let two : list (list (@num Scalar_Qc)) := [[q 1 1; q 2 1]; [q 3 1; q 4 1]] in
  let encrypted_two :=
    map (map (@pk_encrypt Scalar_Qc (MaskCipher Scalar_Qc) (q 7 1) (q 2 1)))
        two in
  Server_aggregate_gradients server_3 two
  = Ok (np_array (sum_over 3 2 two))
  /\ sum_over 3 2 two
     = scale (div (@of_nat Scalar_Qc 2) (@of_nat Scalar_Qc 3)) (average 2 two)
  /\ server_round server_3 encrypted_two = Ok (sum_over 3 2 two).
Proof.
  intros two encrypted_two.
  destruct (@Server_aggregate_gradients_divides_by_n_clients
              Scalar_Qc (MaskCipher Scalar_Qc) Qcft MaskCipher_Qc_homomorphic
              server_3 2 two) as (A & B & C).
  - exact of_nat_Qc_nonzero.
  - discriminate.
  - repeat constructor.
  - split; [exact A|]. split; [exact B|].
    apply C.
    + discriminate.
    + exact server_3_keys.
    + repeat constructor; exists (q 2 1); reflexivity.
Defined.

(** ** The training loop *)

Section Consistency.
Context `{Paillier}.

Lemma Party_gradient_step_run (aggregate : list num) (eta : num) (c : Party) :
  Party_gradient_step aggregate eta c
  = bindR (broadcast_inplace sub (Net_weights (Party_model c))
                             (map (mul eta) aggregate))
          (fun w => Ok {| Party_name := Party_name c;
                          Party_model :=
                            {| Net_X := Net_X (Party_model c);
                               Net_y := Net_y (Party_model c);
                               Net_weights := w |};
                          Party_pubkey := Party_pubkey c |}).
Proof.
  unfold Party_gradient_step, Net_gradient_step, bind, get, liftR, put.
  destruct (broadcast_inplace sub _ _); reflexivity.
Qed.

Lemma hybrid_round_inv server eta cs e cs' e' :
  hybrid_round server eta cs e = Ok (cs', e') ->
  exists gradients aggregate,
    gather_gradients cs e = Ok (gradients, e')
    /\ server_round server gradients = Ok aggregate
    /\ mapR (Party_gradient_step aggregate eta) cs = Ok cs'.
Proof.
  unfold hybrid_round, bind, liftR.
  destruct (gather_gradients cs e) as [[gradients e1]|] eqn:G; [|discriminate].
  destruct (server_round server gradients) as [aggregate|] eqn:R;
    [|discriminate].
  destruct (mapR _ cs) as [cs1|] eqn:E; [|discriminate].
  intros I. injection I as <- <-.
  exists gradients, aggregate. repeat split; auto.
Qed.

Lemma step_weights aggregate eta w : forall cs cs',
  Forall (fun c => Net_weights (Party_model c) = w) cs ->
  mapR (Party_gradient_step aggregate eta) cs = Ok cs' ->
  Forall (fun c' => broadcast_inplace sub w (map (mul eta) aggregate)
                    = Ok (Net_weights (Party_model c'))) cs'.
Proof.
  induction cs as [|c cs IH]; intros cs' Hw E; simpl in E.
  - injection E as <-. constructor.
  - apply Forall_cons_iff in Hw as [Hc Hw].
    rewrite Party_gradient_step_run, Hc in E.
    destruct (broadcast_inplace sub w _) as [w1|]; [|discriminate].
    simpl in E. destruct (mapR _ cs) as [cs1|]; [|discriminate].
    simpl in E. injection E as <-.
    constructor; [reflexivity|]. apply IH; [exact Hw|reflexivity].
Qed.

Lemma hybrid_round_identical server eta cs e cs' e' :
  identical_weights cs ->
  hybrid_round server eta cs e = Ok (cs', e') ->
  identical_weights cs'.
Proof.
  intros Hid E.
  destruct (hybrid_round_inv _ _ _ _ E) as (gs & agg & _ & _ & Hstep).
  destruct cs as [|c cs].
  - simpl in Hstep. injection Hstep as <-. intros c1 c2 [].
  - assert (Hw : Forall (fun c0 => Net_weights (Party_model c0)
                                   = Net_weights (Party_model c)) (c :: cs)).
    { apply Forall_forall. intros c0 Hc0.
      apply Hid; [exact Hc0|left; reflexivity]. }
    pose proof (step_weights _ _ Hw Hstep) as F.
    rewrite Forall_forall in F.
    intros c1 c2 Hc1 Hc2.
    pose proof (F c1 Hc1) as F1. pose proof (F c2 Hc2) as F2.
    congruence.
Qed.

Lemma hybrid_rounds_identical server eta k : forall cs e cs' e',
  identical_weights cs ->
  hybrid_rounds k server eta cs e = Ok (cs', e') ->
  identical_weights cs'.
Proof.
  induction k as [|k IH]; intros cs e cs' e' Hid E; simpl in E.
  - unfold ret in E. injection E as <- <-. exact Hid.
  - unfold bind in E.
    destruct (hybrid_round server eta cs e) as [[cs1 e1]|] eqn:R; [|discriminate].
    eapply IH; [|exact E]. eapply hybrid_round_identical; eauto.
Qed.

Lemma hybrid_rounds_length server eta k : forall cs e cs' e',
  hybrid_rounds k server eta cs e = Ok (cs', e') ->
  length cs' = length cs.
Proof.
  induction k as [|k IH]; intros cs e cs' e' E; simpl in E.
  - unfold ret in E. injection E as <- <-. reflexivity.
  - apply bind_Ok_inv in E as (cs1 & e1 & R & E).
    apply hybrid_round_inv in R as (gradients & aggregate & _ & _ & St).
    rewrite (IH _ _ _ _ E). exact (mapR_length _ _ St).
Qed.

(** *** The values of a round on well-shaped data

    The shape errors of numpy are the only ones of the round in the
    embedding: on well-shaped data its run has a value, which is the value
    of the program's round whenever that one completes. *)

Lemma vecmat_length (D : nat) (rs : list (list num)) : forall d,
  Forall (fun r => length r = D) rs ->
  length (vecmat D d rs) = D.
Proof.
  induction rs as [|r rs IH]; intros [|a d] Hrs; simpl;
    try apply repeat_length.
  apply Forall_cons_iff in Hrs as [Hr Hrs].
  rewrite zip_with_length; rewrite length_map; [exact Hr|].
  rewrite IH; auto.
Qed.

Lemma encrypt_run (pk : PublicKey) (i : num) e :
  exists c e',
    encrypt (Some pk) i e = Ok (c, e') /\ exists r, c = pk_encrypt pk r i.
Proof.
  eexists; eexists. split; [reflexivity|]. eexists; reflexivity.
Qed.

Lemma encrypt_vector_run (pk : PublicKey) (x : list num) : forall e,
  exists v e',
    encrypt_vector (Some pk) x e = Ok (v, e') /\ encrypts pk v x.
Proof.
  induction x as [|i x IH]; intros e.
  - exists [], e. split; [reflexivity|constructor].
  - destruct (encrypt_run pk i e) as (c & e1 & E1 & R1).
    destruct (IH e1) as (v & e' & E & R).
    exists (c :: v), e'. split; [|constructor; assumption].
    unfold encrypt_vector in *. simpl.
    erewrite bind_Ok by exact E1. erewrite bind_Ok by exact E. reflexivity.
Qed.

Lemma Party_get_noise_run e :
  exists e',
    Party_get_noise e
    = Ok (mul (py_random e (py_random_pos e)) hundredth, e').
Proof. eexists. reflexivity. Qed.

Lemma Party_compute_partial_gradient_run D (c : Party) pk e :
  ready D pk c ->
  exists gradient v e',
    Net_compute_gradient (Party_model c) = Ok (gradient, Party_model c)
    /\ length gradient = D
    /\ Party_compute_partial_gradient c e = Ok (v, e')
    /\ encrypts pk v
         (map (fun g => add g (mul (py_random e (py_random_pos e)) hundredth))
              gradient).
Proof.
  intros (Hs & Hw & Hpk).
  pose proof (@Net_compute_gradient_run _ (Party_model c) D Hs Hw) as G.
  destruct (Party_get_noise_run e) as (e1 & N).
  match type of G with
  | _ = Ok (?g, _) =>
      destruct (encrypt_vector_run pk
                  (map (fun x => add x (mul (py_random e (py_random_pos e))
                                            hundredth)) g) e1)
        as (v & e' & E & R);
      exists g, v, e'
  end.
  split; [exact G|]. split; [|split].
  - destruct Hs as (_ & Hr & _).
    rewrite length_map. apply vecmat_length, Hr.
  - unfold Party_compute_partial_gradient. rewrite G, Hpk. simpl bindR.
    erewrite bind_Ok by (apply liftR_Ok; reflexivity).
    erewrite bind_Ok by exact N. exact E.
  - exact R.
Qed.
Lemma gather_gradients_run D pk (cs : list Party) : forall e,
  Forall (ready D pk) cs ->
  exists vs e',
    gather_gradients cs e = Ok (vs, e')
    /\ Forall2 (submission_of D pk) cs vs.
Proof.
  induction cs as [|c cs IH]; intros e Hall.
  - exists [], e. split; [reflexivity|constructor].
  - apply Forall_cons_iff in Hall as [Hc Hall].
    destruct (Party_compute_partial_gradient_run e Hc)
      as (g & v & e1 & G & L & E & R).
    destruct (IH e1 Hall) as (vs & e' & Es & Rs).
    exists (v :: vs), e'. split.
    + unfold gather_gradients in *. simpl.
      erewrite bind_Ok by exact E. erewrite bind_Ok by exact Es.
      reflexivity.
    + constructor; [|exact Rs]. exists g. eexists. eauto.
Qed.

Lemma submission_length D pk c v : submission_of D pk c v -> length v = D.
Proof.
  intros (g & noise & _ & L & R). apply Forall2_length in R.
  rewrite length_map in R. congruence.
Qed.

Lemma submissions_length D pk cs vs :
  Forall2 (submission_of D pk) cs vs ->
  Forall (fun v => length v = D) vs.
Proof.
  induction 1 as [|c v cs vs R _ IH]; constructor; [|exact IH].
  eapply submission_length, R.
Qed.

Lemma server_round_run (server : Server) D gradients :
  Server_n_clients server <> 0 ->
  gradients <> [] ->
  Forall (fun v => length v = D) gradients ->
  exists aggregate,
    server_round server gradients = Ok aggregate /\ length aggregate = D.
Proof.
  intros Hn Hne Hall. destruct gradients as [|g gs]; [congruence|].
  unfold server_round, Server_aggregate_gradients.
  rewrite (np_sum_axis0_run Hall). simpl.
  rewrite (@mapR_total _ _ _
             (fun c => enc_mul c (div one (of_nat (Server_n_clients server))))).
  - simpl. eexists. split; [reflexivity|].
    rewrite !length_map. apply fold_left_zip_with_length, Hall.
  - intros a. apply Nat.eqb_neq in Hn. rewrite Hn. reflexivity.
Qed.

Lemma gradient_steps_run D pk aggregate eta (cs : list Party) :
  length aggregate = D ->
  Forall (ready D pk) cs ->
  exists cs',
    mapR (Party_gradient_step aggregate eta) cs = Ok cs'
    /\ Forall (ready D pk) cs' /\ length cs' = length cs.
Proof.
  intros La. induction cs as [|c cs IH]; intros Hall.
  - exists []. repeat split; constructor.
  - apply Forall_cons_iff in Hall as [(Hs & Hw & Hpk) Hall].
    destruct (IH Hall) as (cs' & E & R & L).
    eexists. simpl. rewrite Party_gradient_step_run.
    rewrite broadcast_inplace_same_length
      by (rewrite length_map; congruence).
    simpl. rewrite E. simpl. split; [reflexivity|]. split.
    + constructor; [|exact R]. repeat split; simpl; try apply Hs; auto.
      rewrite zip_with_length; rewrite ?length_map; congruence.
    + simpl. congruence.
Qed.

Lemma hybrid_round_run D (server : Server) eta (cs : list Party) e :
  Server_n_clients server <> 0 ->
  cs <> [] ->
  Forall (ready D (Server_pubkey server)) cs ->
  exists cs' e',
    hybrid_round server eta cs e = Ok (cs', e')
    /\ Forall (ready D (Server_pubkey server)) cs'
    /\ length cs' = length cs.
Proof.
  intros Hn Hne Hall.
  destruct (gather_gradients_run e Hall) as (vs & e' & G & R).
  destruct (@server_round_run server D vs Hn) as (agg & A & La).
  { apply Forall2_length in R. destruct cs; [congruence|].
    destruct vs; [discriminate|discriminate]. }
  { eapply submissions_length, R. }
  destruct (@gradient_steps_run D _ agg eta cs La Hall) as (cs' & S & R' & L).
  exists cs', e'. split; [|split; assumption].
  unfold hybrid_round. erewrite bind_Ok by exact G.
  erewrite bind_Ok by (apply liftR_Ok; exact A).
  apply liftR_Ok, S.
Qed.

Lemma hybrid_rounds_run D (server : Server) eta k : forall (cs : list Party) e,
  Server_n_clients server <> 0 ->
  cs <> [] ->
  Forall (ready D (Server_pubkey server)) cs ->
  exists cs' e',
    hybrid_rounds k server eta cs e = Ok (cs', e')
    /\ length cs' = length cs.
Proof.
  induction k as [|k IH]; intros cs e Hn Hne Hall.
  - exists cs, e. split; reflexivity.
  - destruct (@hybrid_round_run D server eta cs e Hn Hne Hall)
      as (cs1 & e1 & R & Hall1 & L1).
    destruct (IH cs1 e1 Hn) as (cs' & e' & E & L); [|exact Hall1|].
    { intros ->. destruct cs; [congruence|discriminate]. }
    exists cs', e'. split; [|congruence].
    simpl. erewrite bind_Ok by exact R. exact E.
Qed.
(** *** The parties at session start *)

Lemma parties_of_start D pk X y : forall names,
  Forall2 (well_shaped D) X y ->
  let cs := map (fun t => Party_init (fst (fst t)) (snd (fst t)) (snd t)
                                     (Some pk))
                (zip3 names X y) in
  Forall (ready D pk) cs
  /\ Forall (fun c => Net_weights (Party_model c) = np_zeros D) cs.
Proof.
  intros names W. revert names.
  induction W as [|Xi yi X y Wi _ IH]; intros [|name names]; simpl;
    try (split; apply Forall_nil).
  destruct (IH names) as [R Z]. destruct Wi as (Hc & Hr & Hy & Hm).
  split; apply Forall_cons; try assumption.
  - unfold ready, well_shaped. simpl.
    repeat split; auto; unfold np_zeros; rewrite repeat_length; exact Hc.
  - simpl. rewrite Hc. reflexivity.
Qed.

Lemma parties_of_length pk n X y :
  length (parties_of pk n X y)
  = Nat.min n (Nat.min (length X) (length y)).
Proof.
  unfold parties_of.
  rewrite length_map, zip3_length, hospital_names_length. reflexivity.
Qed.

(** C4. On well-shaped data with a common number of columns, whenever
    [k] rounds of the training loop have completed, all parties hold the
    same weight vector, and every party of the session is still there.
    Nothing is said of the runs that raise. *)
Theorem hybrid_weights_identical (X : list ndarray2) (y : list (list num))
    (config : Config) (e : Entropy) (D k : nat) :
  Forall2 (well_shaped D) X y ->
  forall clients e',
    hybrid_run k X y config e = Ok (clients, e') ->
    identical_weights clients
    /\ length clients = Nat.min (n_clients config) (length X).
Proof.
  intros W clients e' Run.
  destruct (hybrid_setup_run X y config e) as (server & e1 & E & I).
  destruct (@parties_of_start D (Server_pubkey server) X y
              (hospital_names (n_clients config)) W) as [R Z].
  fold (parties_of (Server_pubkey server) (n_clients config) X y) in R, Z.
  unfold hybrid_run in Run.
  erewrite bind_Ok in Run by exact E. simpl in Run.
  split.
  - eapply hybrid_rounds_identical; [|exact Run].
    rewrite Forall_forall in Z. intros c1 c2 H1 H2.
    rewrite (Z c1 H1), (Z c2 H2). reflexivity.
  - rewrite (hybrid_rounds_length _ _ _ _ _ Run), parties_of_length.
    rewrite <- (Forall2_length W), Nat.min_id. reflexivity.
Qed.

(** C1 (what the code does instead). In a round the server is handed
    the list [gradients] gathered from the parties: one ciphertext vector
    per party, not one combined vector; and the vector of each party
    decrypts, under the server's private key, to that party's own noisy
    gradient.  No party adds its vector to another's. *)
Theorem server_is_handed_every_gradient {Hom : AdditivelyHomomorphic}
    (server : Server) (eta : num) (D : nat) (cs : list Party) (e : Entropy) :
  key_pair_of server ->
  Forall (ready D (Server_pubkey server)) cs ->
  exists gradients e',
    gather_gradients cs e = Ok (gradients, e')
    /\ hybrid_round server eta cs e
       = (aggregate <- liftR (server_round server gradients) ;;
          liftR (mapR (Party_gradient_step aggregate eta) cs))%se e'
    /\ length gradients = length cs
    /\ Forall2 (fun c v =>
                  exists gradient noise,
                    Net_compute_gradient (Party_model c)
                    = Ok (gradient, Party_model c)
                    /\ Server_decrypt_gradient server (np_array v)
                       = Ok (map (fun g => add g noise) gradient))
               cs gradients.
Proof.
  intros K Hall.
  destruct (gather_gradients_run e Hall) as (vs & e' & G & R).
  exists vs, e'. split; [exact G|]. split; [|split].
  - unfold hybrid_round. erewrite bind_Ok by exact G. reflexivity.
  - symmetry. eapply Forall2_length, R.
  - eapply Forall2_impl; [|exact R].
    intros c v (g & noise & Hg & _ & Henc).
    exists g, noise. split; [exact Hg|].
    unfold Server_decrypt_gradient, decrypt_vector.
    destruct (encrypts_decrypt K Henc) as [Hd _]. rewrite Hd. reflexivity.
Qed.
End Consistency.

Lemma data_3_well_shaped :
  Forall2 (@well_shaped Scalar_Qc 2) [X_a; X_b; X_c] [y_a; y_b; y_c].
Proof.
  repeat apply Forall2_cons; try apply Forall2_nil;
    repeat split; try discriminate; repeat constructor.
Qed.

Lemma hybrid_weights_identical_witness :
  exists clients e',
    @hybrid_run Scalar_Qc (MaskCipher Scalar_Qc) 2
      [X_a; X_b; X_c] [y_a; y_b; y_c] (config_of 3 1024 2) entropy_Qc
    = Ok (clients, e')
    /\ length clients = 3
    /\ identical_weights clients.
Proof.
  destruct (completes_Ok
              (@hybrid_run Scalar_Qc (MaskCipher Scalar_Qc) 2
                 [X_a; X_b; X_c] [y_a; y_b; y_c] (config_of 3 1024 2)
                 entropy_Qc))
    as [[clients e'] E]; [vm_compute; reflexivity|].
  exists clients, e'. split; [exact E|].
  destruct (@hybrid_weights_identical Scalar_Qc (MaskCipher Scalar_Qc)
              [X_a; X_b; X_c] [y_a; y_b; y_c] (config_of 3 1024 2)
              entropy_Qc 2 2 data_3_well_shaped clients e' E) as [Id L].
  split; [exact L | exact Id].
Defined.

Lemma parties_3_ready :
  Forall (@ready Scalar_Qc (MaskCipher Scalar_Qc) 2 (Server_pubkey server_3))
         parties_3.
Proof.
  exact (proj1 (@parties_of_start Scalar_Qc (MaskCipher Scalar_Qc) 2 (q 7 1)
                  [X_a; X_b; X_c] [y_a; y_b; y_c] (hospital_names 3)
                  data_3_well_shaped)).
Qed.

Lemma server_is_handed_every_gradient_witness :
  exists gradients e',
    gather_gradients parties_3 entropy_Qc = Ok (gradients, e')
    /\ length gradients = 3
    /\ Forall2 (fun c v =>
                  exists gradient noise,
                    Net_compute_gradient (Party_model c)
                    = Ok (gradient, Party_model c)
                    /\ Server_decrypt_gradient server_3 (np_array v)
                       = Ok (map (fun g => add g noise) gradient))
               parties_3 gradients.
Proof.
  destruct (@server_is_handed_every_gradient Scalar_Qc (MaskCipher Scalar_Qc)
              MaskCipher_Qc_homomorphic server_3 (q 1 100) 2 parties_3
              entropy_Qc server_3_keys parties_3_ready)
    as (gradients & e' & G & _ & L & R).
  exists gradients, e'. split; [exact G|]. split; [exact L|exact R].
Defined.

(** ** Probabilistic encryption *)

Section Unlinkability.
Context `{Paillier}.

(** C8. Encrypting the same plaintext twice under one public key draws
    a fresh obfuscator from phe for each call, the next two of the run,
    and nothing else; the two ciphertexts differ whenever these two draws
    do, for a cipher whose ciphertexts determine the obfuscator. *)
Theorem encrypt_vector_fresh_randomness (pk : PublicKey) (x : num)
    (e : Entropy) :
  obfuscator_injective ->
  phe_obfuscator e (phe_obfuscator_pos e)
  <> phe_obfuscator e (S (phe_obfuscator_pos e)) ->
  exists c1 c2 e',
    encrypt_vector (Some pk) [x; x] e = Ok ([c1; c2], e')
    /\ c1 = pk_encrypt pk (phe_obfuscator e (phe_obfuscator_pos e)) x
    /\ c2 = pk_encrypt pk (phe_obfuscator e (S (phe_obfuscator_pos e))) x
    /\ c1 <> c2
    /\ phe_obfuscator_pos e' = 2 + phe_obfuscator_pos e
    /\ py_random_pos e' = py_random_pos e
    /\ phe_keyseed_pos e' = phe_keyseed_pos e.
Proof.
  intros Inj Fresh.
  eexists _, _, _. split; [reflexivity|].
  split; [reflexivity|]. split; [reflexivity|].
  split; [|repeat split].
  intros Eq. apply Fresh. exact (Inj _ _ _ _ Eq).
Qed.
End Unlinkability.

Lemma MaskCipher_obfuscator_injective (S : Scalar) :
  @obfuscator_injective S (MaskCipher S).
Proof.
  intros pk r r' x Eq. simpl in Eq. injection Eq as _ Er. exact Er.
Qed.

Lemma encrypt_vector_fresh_randomness_witness :
  exists c1 c2 e',
    @encrypt_vector Scalar_Qc (MaskCipher Scalar_Qc) (Some (q 7 1))
      [q 3 1; q 3 1] entropy_Qc = Ok ([c1; c2], e')
    /\ c1 = (q 10 1, q 1 1)
    /\ c2 = (q 17 1, q 2 1)
    /\ c1 <> c2.
Proof.
  destruct (@encrypt_vector_fresh_randomness Scalar_Qc (MaskCipher Scalar_Qc)
              (q 7 1) (q 3 1) entropy_Qc
              (@MaskCipher_obfuscator_injective Scalar_Qc))
    as (c1 & c2 & e' & E & E1 & E2 & Ne & _).
  - intros Eq. apply (f_equal this) in Eq. vm_compute in Eq. discriminate Eq.
  - exists c1, c2, e'. split; [exact E|]. split; [|split; [|exact Ne]].
    + rewrite E1. simpl.
      apply f_equal2; apply Qc_is_canon; vm_compute; reflexivity.
    + rewrite E2. simpl.
      apply f_equal2; apply Qc_is_canon; vm_compute; reflexivity.
Defined.

(** ** Non-finite gradients *)

Lemma xinf_scale_not_finite positive p : is_finite (xinf_scale positive p) = false.
Proof.
  unfold xinf_scale.
  destruct (Qeq_bool p 0); [reflexivity|].
  destruct (Qle_bool 0 p), positive; reflexivity.
Qed.

Lemma xmul_not_finite (eta g : xnum) :
  is_finite g = false -> is_finite (xmul eta g) = false.
Proof.
  destruct g, eta; simpl; intros F; try discriminate; try reflexivity;
    apply xinf_scale_not_finite.
Qed.

Lemma xsub_not_finite (w h : xnum) :
  is_finite h = false -> is_finite (xsub w h) = false.
Proof. destruct h, w; simpl; intros F; try discriminate; reflexivity. Qed.

Lemma step_not_finite (w eta g : xnum) :
  is_finite g = false -> is_finite (xsub w (xmul eta g)) = false.
Proof. intros F. apply xsub_not_finite, xmul_not_finite, F. Qed.

Lemma zip_with_step_not_finite (eta : xnum) : forall (w g : list xnum) j,
  length g = length w -> j < length g ->
  is_finite (nth j g NaN) = false ->
  is_finite (nth j (zip_with xsub w (map (xmul eta) g)) NaN) = false.
Proof.
  induction w as [|a w IH]; intros [|b g] j E L F; simpl in *;
    try discriminate; try lia.
  destruct j as [|j]; [apply step_not_finite, F|].
  apply IH; [lia|lia|exact F].
Qed.

(** C9 (as amended). Non-finite gradient values are not detected:
    [Net.fit] applies the gradient as [compute_gradient] returned it, no
    error is raised, and every weight whose gradient coordinate is
    non-finite is non-finite afterwards. *)
Theorem nonfinite_gradient_reaches_weights
    (net : @Net Scalar_xnum) (eta : xnum) (g : list xnum) :
  @Net_compute_gradient Scalar_xnum net = Ok (g, net) ->
  length g = length (Net_weights net) ->
  exists net',
    @Net_fit Scalar_xnum 1 eta net = Ok (tt, net')
    /\ length (Net_weights net') = length g
    /\ forall j, j < length g ->
         is_finite (nth j g NaN) = false ->
         is_finite (nth j (Net_weights net') NaN) = false.
Proof.
  intros G L.
  exists {| Net_X := Net_X net; Net_y := Net_y net;
            Net_weights := zip_with xsub (Net_weights net) (map (xmul eta) g) |}.
  split; [|split].
  - assert (S : @Net_gradient_step Scalar_xnum g eta net
                = Ok (tt, {| Net_X := Net_X net; Net_y := Net_y net;
                             Net_weights := zip_with xsub (Net_weights net)
                                              (map (xmul eta) g) |})).
    { unfold Net_gradient_step, bind, get, liftR, put.
      rewrite broadcast_inplace_same_length
        by (rewrite length_map; symmetry; exact L).
      reflexivity. }
    unfold Net_fit. simpl.
    erewrite bind_Ok; [reflexivity|].
    erewrite bind_Ok by exact G. exact S.
  - simpl. rewrite zip_with_length; rewrite ?length_map; symmetry; exact L.
  - intros j Hj F. simpl. apply zip_with_step_not_finite; assumption.
Qed.

(** C9, the claim as stated fails: a party without training rows computes
    the gradient [nan] ([0.0 / 0]); [fit] raises nothing and the party's
    weight becomes [nan]. *)
Lemma nan_gradient_goes_undetected :
  @Net_compute_gradient Scalar_xnum (Net_init X_empty y_empty)
  = Ok ([NaN], Net_init X_empty y_empty)
  /\ @Net_fit Scalar_xnum 1 (Fin (3 # 2)) (Net_init X_empty y_empty)
     = Ok (tt, {| Net_X := X_empty; Net_y := y_empty; Net_weights := [NaN] |}).
Proof. split; reflexivity. Qed.

Lemma nonfinite_gradient_reaches_weights_witness :
  exists net',
    @Net_fit Scalar_xnum 1 (Fin (3 # 2)) (Net_init X_empty y_empty)
    = Ok (tt, net')
    /\ is_finite (nth 0 (Net_weights net') NaN) = false.
Proof.
  destruct (@nonfinite_gradient_reaches_weights
              (Net_init X_empty y_empty) (Fin (3 # 2)) [NaN]
              eq_refl eq_refl)
    as (net' & E & _ & P).
  exists net'. split; [exact E|]. apply (P 0); [simpl; lia|reflexivity].
Defined.

(** ** The model run on the concrete data *)

Ltac qc_values := repeat f_equal; apply Qc_is_canon; vm_compute; reflexivity.

(** The gradient of the first party at zero weights. *)
Example gradient_of_X_a :
  @Net_compute_gradient Scalar_Qc (Net_init X_a y_a)
  = Ok ([Q2Qc (-13 # 2); Q2Qc (-4 # 1)], Net_init X_a y_a).
Proof. unfold Net_compute_gradient, bind, ret. simpl. qc_values. Qed.

(** Three encrypted vectors, [n_clients = 3]: the server returns their
    average. *)
Example server_round_of_three :
  server_round server_3 encrypted_3 = Ok [q 3 1; q 4 1].
Proof. unfold server_round, Server_aggregate_gradients. simpl. qc_values. Qed.

(** Two encrypted vectors, [n_clients = 3]: the sum is still divided by 3. *)
Example server_round_of_two :
  server_round server_3 (firstn 2 encrypted_3) = Ok [q 4 3; q 2 1].
Proof. unfold server_round, Server_aggregate_gradients. simpl. qc_values. Qed.

(** Without the length test of [sum_encrypted_vectors], numpy would
    broadcast a vector of length 1 over one of length 3. *)
Example broadcast_one_over_three :
  let c : @EncryptedNumber _ (MaskCipher Scalar_Qc) := (q 1 1, q 2 1) in
  broadcast (@enc_add _ (MaskCipher Scalar_Qc)) [c] [c; c; c]
  = Ok (map (@enc_add _ (MaskCipher Scalar_Qc) c) [c; c; c])
  /\ sum_encrypted_vectors [c] [c; c; c]
     = Raise (ValueError "Encrypted vectors must have the same size").
Proof. split; reflexivity. Qed.

(** What the server is handed by the first of the three parties decrypts
    to that party's gradient plus its noise, [0.5 * 0.01]. *)
Example first_party_gradient_is_readable :
  bindR (Party_compute_partial_gradient
           (@Party_init Scalar_Qc (MaskCipher Scalar_Qc)
              "Hospital 1" X_a y_a (Some (q 7 1))) entropy_Qc)
        (fun r => Server_decrypt_gradient server_3 (np_array (fst r)))
  = Ok [Q2Qc (-1299 # 200); Q2Qc (-799 # 200)].
Proof.
  unfold Party_compute_partial_gradient, Net_compute_gradient, bind, ret.
  simpl. qc_values.
Qed.


(** * Further properties of the code *)

(** ** Vectors of ciphertexts *)

Section CipherVectors.
Context `{Paillier}.
Context {Hom : AdditivelyHomomorphic}.

(** X1. Under the server's key pair [decrypt_vector] inverts
    [encrypt_vector]: whatever the randomness drawn, the ciphertext vector
    has the length of the plaintext vector and decrypts to it. *)
Theorem decrypt_encrypt_vector (server : Server) (x : list num) (e : Entropy) :
  key_pair_of server ->
  exists v e',
    encrypt_vector (Some (Server_pubkey server)) x e = Ok (v, e')
    /\ length v = length x
    /\ decrypt_vector (Server_privkey server) (np_array v) = Ok x.
Proof.
  intros K.
  destruct (encrypt_vector_run (Server_pubkey server) x e) as (v & e' & E & R).
  destruct (encrypts_decrypt K R) as [Hd Hl].
  exists v, e'. split; [exact E|]. split; [exact Hl|].
  simpl. rewrite Hd. reflexivity.
Qed.

Lemma sum_encrypted_vectors_same_length (a b : list EncryptedNumber) :
  length a = length b ->
  sum_encrypted_vectors a b = Ok (zip_with enc_add a b).
Proof.
  intros E. unfold sum_encrypted_vectors.
  rewrite (proj2 (Nat.eqb_eq _ _) E). simpl.
  apply broadcast_same_length, E.
Qed.

(** X2. The sum of two ciphertext vectors of equal length decrypts to the
    element-wise sum of what the two vectors decrypt to. *)
Theorem sum_encrypted_vectors_decrypts (sk : PrivateKey)
    (a b : list EncryptedNumber) :
  length a = length b ->
  bindR (sum_encrypted_vectors a b) (fun s => decrypt_vector sk (np_array s))
  = Ok (zip_with add (map (sk_decrypt sk) a) (map (sk_decrypt sk) b)).
Proof.
  intros E. rewrite (sum_encrypted_vectors_same_length _ _ E). simpl.
  f_equal. apply map_zip_with. apply dec_add.
Qed.

Lemma ring_sum_run D (gs : list (list EncryptedNumber)) : forall g,
  Forall (fun v => length v = D) (g :: gs) ->
  ring_sum g gs = Ok (fold_left (zip_with enc_add) gs g).
Proof.
  unfold ring_sum.
  induction gs as [|v gs IH]; intros g Hall; [reflexivity|].
  apply Forall_cons_iff in Hall as [Hg Hall].
  apply Forall_cons_iff in Hall as [Hv Hall].
  simpl. rewrite sum_encrypted_vectors_same_length by congruence.
  apply IH. constructor; [|exact Hall].
  rewrite zip_with_length; congruence.
Qed.
End CipherVectors.

(** X3. Passing the vectors of the parties along the ring, each party
    adding its own with [sum_encrypted_vectors], yields exactly the
    ciphertext vector that [np.sum(gradients, axis=0)] computes at the
    server. *)
Theorem ring_sum_is_np_sum `{Paillier} (D : nat)
    (g : list EncryptedNumber) (gs : list (list EncryptedNumber)) :
  Forall (fun v => length v = D) (g :: gs) ->
  exists total,
    ring_sum g gs = Ok total
    /\ np_sum_axis0 (g :: gs) = Ok (np_array total)
    /\ length total = D.
Proof.
  intros Hall. exists (fold_left (zip_with enc_add) gs g). split; [|split].
  - apply (ring_sum_run Hall).
  - exact (@np_sum_axis0_run _ _ _ NpElem_enc D g gs Hall).
  - apply fold_left_zip_with_length, Hall.
Qed.

(** X4. A party built without a public key, as [local_learning] builds
    them, cannot submit a gradient: on well-shaped data with at least one
    feature [compute_partial_gradient] raises [AttributeError]. *)
Theorem keyless_party_cannot_encrypt `{Paillier} (D : nat) (c : Party)
    (e : Entropy) :
  well_shaped D (Net_X (Party_model c)) (Net_y (Party_model c)) ->
  length (Net_weights (Party_model c)) = D ->
  Party_pubkey c = None ->
  D <> 0 ->
  Party_compute_partial_gradient c e
  = Raise (AttributeError "'NoneType' object has no attribute 'encrypt'").
Proof.
  intros Hs Hw Hpk HD.
  pose proof (@Net_compute_gradient_run _ (Party_model c) D Hs Hw) as G.
  destruct (Party_get_noise_run e) as (e1 & N).
  unfold Party_compute_partial_gradient. rewrite G, Hpk. simpl bindR.
  erewrite bind_Ok by (apply liftR_Ok; reflexivity).
  erewrite bind_Ok by exact N.
  destruct Hs as (_ & Hr & _).
  match goal with
  | |- encrypt_vector None (map ?f (map ?h ?v)) e1 = _ =>
      assert (L : length v = D) by (apply vecmat_length, Hr);
      destruct v as [|a rest]; [simpl in L; congruence|]
  end.
  reflexivity.
Qed.

Lemma decrypt_encrypt_vector_witness :
  exists v e',
    encrypt_vector (Some (Server_pubkey server_3)) [q 1 1; q 2 1] entropy_Qc
    = Ok (v, e')
    /\ length v = 2
    /\ decrypt_vector (Server_privkey server_3) (np_array v)
       = Ok [q 1 1; q 2 1].
Proof.
  exact (@decrypt_encrypt_vector Scalar_Qc (MaskCipher Scalar_Qc)
           MaskCipher_Qc_homomorphic server_3 [q 1 1; q 2 1] entropy_Qc
           server_3_keys).
Defined.

Lemma sum_encrypted_vectors_decrypts_witness :
  let a : list (@EncryptedNumber _ (MaskCipher Scalar_Qc)) :=
    [(q 1 1, q 2 1); (q 3 1, q 4 1)] in
  let sk := Server_privkey server_3 in
  bindR (sum_encrypted_vectors a a)
        (fun s => decrypt_vector sk (np_array s))
  = Ok (zip_with add (map (sk_decrypt sk) a) (map (sk_decrypt sk) a)).
Proof.
  intros a sk.
  apply (@sum_encrypted_vectors_decrypts Scalar_Qc (MaskCipher Scalar_Qc)
           MaskCipher_Qc_homomorphic sk a a).
  reflexivity.
Defined.

Lemma ring_sum_is_np_sum_witness :
  let c : @EncryptedNumber _ (MaskCipher Scalar_Qc) := (q 1 1, q 2 1) in
  exists total,
    ring_sum [c; c] [[c; c]; [c; c]] = Ok total
    /\ @np_sum_axis0 Scalar_Qc _ (@NpElem_enc _ (MaskCipher Scalar_Qc))
         [[c; c]; [c; c]; [c; c]]
       = Ok (np_array total)
    /\ length total = 2.
Proof.
  intros c.
  apply (@ring_sum_is_np_sum Scalar_Qc (MaskCipher Scalar_Qc) 2
           [c; c] [[c; c]; [c; c]]).
  repeat constructor.
Defined.

Lemma keyless_party_cannot_encrypt_witness :
  Party_compute_partial_gradient
    (@Party_init Scalar_Qc (MaskCipher Scalar_Qc) "Hospital 1" X_a y_a None)
    entropy_Qc
  = Raise (AttributeError "'NoneType' object has no attribute 'encrypt'").
Proof.
  apply (@keyless_party_cannot_encrypt Scalar_Qc (MaskCipher Scalar_Qc) 2).
  - repeat split; try discriminate; repeat constructor.
  - reflexivity.
  - reflexivity.
  - discriminate.
Defined.

(** ** The error measure and the local model *)

Lemma repeatM_add {S} (body : SE S unit) (a b : nat) (s : S) :
  repeatM (a + b) body s
  = bind (repeatM a body) (fun _ => repeatM b body) s.
Proof.
  revert s. induction a as [|a IH]; intros s; simpl; [reflexivity|].
  unfold bind in *.
  destruct (body s) as [[[] s1]|]; [|reflexivity].
  apply IH.
Qed.

Section ErrorMeasure.
Context `{Scalar}.
Hypothesis Fth : field_theory zero one add mul sub opp div inv (@eq num).

Add Field num_field_mse : Fth.

Lemma squares_of_differences : forall y_pred y : list num,
  map (fun e => mul e e) (zip_with sub y y_pred)
  = map (fun p => mul (sub (fst p) (snd p)) (sub (fst p) (snd p)))
        (combine y_pred y).
Proof.
  induction y_pred as [|p y_pred IH]; intros [|t y]; simpl; try reflexivity.
  rewrite IH. f_equal. ring.
Qed.

Lemma mean_square_error_run (y_pred y : list num) :
  length y_pred = length y ->
  mean_square_error y_pred y
  = Ok (np_mean (map (fun e => mul e e) (zip_with sub y y_pred))).
Proof.
  intros E. unfold mean_square_error.
  rewrite broadcast_same_length by congruence. reflexivity.
Qed.

Lemma fold_left_add_fold_right (l : list num) :
  fold_left add l zero = fold_right add zero l.
Proof.
  apply fold_symmetric; intros; ring.
Qed.

(** X5. For predictions and targets of equal length
    [mean_square_error] is the [1/m * sum_i (y_pred_i - y_i)^2] of its
    docstring, although the code subtracts the other way round. *)
Theorem mean_square_error_docstring (y_pred y : list num) :
  length y_pred = length y ->
  mean_square_error y_pred y = Ok (mse_docstring y_pred y).
Proof.
  intros E. rewrite (mean_square_error_run _ _ E).
  unfold np_mean, mse_docstring. f_equal.
  rewrite fold_left_add_fold_right, squares_of_differences.
  rewrite length_map, length_combine, E, Nat.min_id. reflexivity.
Qed.

Lemma fold_left_add_zeros (l : list num) :
  Forall (fun x => x = zero) l -> fold_left add l zero = zero.
Proof.
  intros Z. rewrite fold_left_add_fold_right.
  induction Z as [|x l -> _ IH]; simpl; [reflexivity|].
  rewrite IH. ring.
Qed.

(** X6. A prediction equal to the (non-empty) target vector has error
    zero. *)
Theorem mean_square_error_of_exact_prediction (y : list num) :
  y <> [] -> mean_square_error y y = Ok zero.
Proof.
  intros _. rewrite (mean_square_error_run y y eq_refl).
  unfold np_mean. f_equal.
  rewrite fold_left_add_zeros.
  - rewrite (Fdiv_def Fth). ring.
  - apply Forall_map. induction y as [|a y IH]; simpl; constructor.
    + ring.
    + exact IH.
Qed.

Lemma inner_zeros (r : list num) : forall n, inner r (np_zeros n) = zero.
Proof.
  unfold np_zeros.
  induction r as [|a r IH]; intros [|n]; simpl; try reflexivity.
  rewrite IH. ring.
Qed.

(** X8. A model that has just been built predicts zero for every row of
    a matrix with as many columns as its own data, and is left as it was;
    for any other number of columns [predict] raises [ValueError]. *)
Theorem fresh_model_predicts_zero (X Xq : ndarray2) (y : list num) :
  (ncols Xq = ncols X ->
   Net_predict Xq (Net_init X y)
   = Ok (np_zeros (length (rows Xq)), Net_init X y))
  /\ (ncols Xq <> ncols X ->
      Net_predict Xq (Net_init X y)
      = Raise (ValueError "shapes not aligned")).
Proof.
  assert (L : length (np_zeros (ncols X)) = ncols X)
    by apply repeat_length.
  unfold Net_predict, bind, get, liftR, dot_mv, Net_init. simpl.
  rewrite L. split; intros E.
  - rewrite E, Nat.eqb_refl. do 2 f_equal.
    rewrite (map_ext _ (fun _ => zero)) by (intros r; apply inner_zeros).
    rewrite map_const. reflexivity.
  - apply Nat.eqb_neq in E. rewrite E. reflexivity.
Qed.

(** X11. At a stationary point, where [compute_gradient] returns the zero
    vector, [fit] leaves the model exactly as it is, for every number of
    iterations and every learning rate. *)
Theorem fit_keeps_stationary_point (net : Net) (g : list num) (eta : num)
    (n_iter : nat) :
  Net_compute_gradient net = Ok (g, net) ->
  Forall (fun x => x = zero) g ->
  length g = length (Net_weights net) ->
  Net_fit n_iter eta net = Ok (tt, net).
Proof.
  intros G Z L.
  assert (S : Net_gradient_step g eta net = Ok (tt, net)).
  { unfold Net_gradient_step, bind, get, liftR, put.
    rewrite broadcast_inplace_same_length
      by (rewrite length_map; symmetry; exact L).
    replace (zip_with sub (Net_weights net) (map (mul eta) g))
      with (Net_weights net); [destruct net; reflexivity|].
    clear G. revert g Z L.
    induction (Net_weights net) as [|a w IH]; intros [|b g] Z L;
      simpl in *; try discriminate; [reflexivity|].
    apply Forall_cons_iff in Z as [-> Z].
    rewrite <- IH by (auto; lia). f_equal. ring. }
  unfold Net_fit. induction n_iter as [|n IH]; simpl; [reflexivity|].
  erewrite bind_Ok; [exact IH|].
  erewrite bind_Ok by exact G. exact S.
Qed.
End ErrorMeasure.

Lemma mean_square_error_docstring_witness :
  @mean_square_error Scalar_Qc [q 1 1; q 2 1] [q 3 1; q 5 1]
  = Ok (@mse_docstring Scalar_Qc [q 1 1; q 2 1] [q 3 1; q 5 1]).
Proof.
  apply (@mean_square_error_docstring Scalar_Qc Qcft). reflexivity.
Defined.

Lemma mean_square_error_of_exact_prediction_witness :
  @mean_square_error Scalar_Qc y_a y_a = Ok (@zero Scalar_Qc).
Proof.
  apply (@mean_square_error_of_exact_prediction Scalar_Qc Qcft). discriminate.
Defined.

Lemma fresh_model_predicts_zero_witness :
  @Net_predict Scalar_Qc X_test2 (Net_init X_a y_a)
  = Ok (np_zeros 2, Net_init X_a y_a)
  /\ @Net_predict Scalar_Qc
       (@Build_ndarray2 Scalar_Qc 3 [[q 1 1; q 2 1; q 3 1]]) (Net_init X_a y_a)
     = Raise (ValueError "shapes not aligned").
Proof.
  split.
  - apply (proj1 (@fresh_model_predicts_zero Scalar_Qc Qcft X_a X_test2 y_a)).
    reflexivity.
  - apply (proj2 (@fresh_model_predicts_zero Scalar_Qc Qcft X_a
                    (@Build_ndarray2 Scalar_Qc 3 [[q 1 1; q 2 1; q 3 1]]) y_a)).
    discriminate.
Defined.

Section LocalModel.
Context `{Scalar}.

(** X7. [mean_square_error] on vectors of different lengths raises
    [ValueError], except that a single prediction is compared with every
    target (numpy broadcasting) without any error. *)
Theorem mean_square_error_shapes (y_pred y : list num) (p : num) :
  (length y_pred <> length y -> length y_pred <> 1 -> length y <> 1 ->
   mean_square_error y_pred y
   = Raise (ValueError "operands could not be broadcast together"))
  /\ (length y <> 1 ->
      mean_square_error [p] y
      = Ok (np_mean (map (fun t => mul (sub t p) (sub t p)) y))).
Proof.
  unfold mean_square_error, broadcast. split.
  - intros E P1 Y1. apply not_eq_sym in E. apply Nat.eqb_neq in E. rewrite E.
    destruct y as [|a [|b y]], y_pred as [|c [|d y_pred]]; simpl in *;
      try reflexivity; congruence.
  - intros Y1. apply Nat.eqb_neq in Y1. simpl length. rewrite Y1.
    destruct y as [|a [|b y]]; simpl in *; try discriminate.
    + reflexivity.
    + rewrite !map_map. reflexivity.
Qed.

Lemma Net_gradient_step_run (net : Net) (g : list num) (eta : num) :
  length g = length (Net_weights net) ->
  Net_gradient_step g eta net
  = Ok (tt, {| Net_X := Net_X net; Net_y := Net_y net;
               Net_weights := zip_with sub (Net_weights net)
                                (map (mul eta) g) |}).
Proof.
  intros L. unfold Net_gradient_step, bind, get, liftR, put.
  rewrite broadcast_inplace_same_length
    by (rewrite length_map; symmetry; exact L).
  reflexivity.
Qed.

(** X9. [gradient_step] with a gradient as long as the weights subtracts
    [eta * gradient] coordinate by coordinate and touches neither [X] nor
    [y]; a gradient of any other length raises [ValueError], unless it has
    exactly one entry, which numpy then subtracts from every weight. *)
Theorem gradient_step_shapes (net : Net) (g : list num) (b eta : num) :
  (length g = length (Net_weights net) ->
   Net_gradient_step g eta net
   = Ok (tt, {| Net_X := Net_X net; Net_y := Net_y net;
                Net_weights := zip_with sub (Net_weights net)
                                 (map (mul eta) g) |}))
  /\ (length g <> length (Net_weights net) -> length g <> 1 ->
      Net_gradient_step g eta net
      = Raise (ValueError "non-broadcastable output operand"))
  /\ (length (Net_weights net) <> 1 ->
      Net_gradient_step [b] eta net
      = Ok (tt, {| Net_X := Net_X net; Net_y := Net_y net;
                   Net_weights := map (fun a => sub a (mul eta b))
                                      (Net_weights net) |})).
Proof.
  split; [apply Net_gradient_step_run|].
  unfold Net_gradient_step, bind, get, liftR, put, broadcast_inplace.
  rewrite length_map. split.
  - intros E G1. apply not_eq_sym in E. apply Nat.eqb_neq in E. rewrite E.
    destruct g as [|a [|c g]]; simpl in *; try reflexivity; congruence.
  - intros W1. simpl. apply Nat.eqb_neq in W1. rewrite W1. reflexivity.
Qed.

Lemma Net_fit_run D (eta : num) (n_iter : nat) : forall net : Net,
  well_shaped D (Net_X net) (Net_y net) ->
  length (Net_weights net) = D ->
  exists w,
    Net_fit n_iter eta net
    = Ok (tt, {| Net_X := Net_X net; Net_y := Net_y net; Net_weights := w |})
    /\ length w = D.
Proof.
  unfold Net_fit.
  induction n_iter as [|n IH]; intros net Hs Hw.
  - exists (Net_weights net). split; [destruct net; reflexivity|exact Hw].
  - pose proof (@Net_compute_gradient_run _ net D Hs Hw) as G.
    match type of G with
    | _ = Ok (?g0, _) => remember g0 as g eqn:Eg
    end.
    assert (Lg : length g = D).
    { rewrite Eg, length_map. apply vecmat_length, Hs. }
    clear Eg.
    assert (S : Net_gradient_step g eta net
                = Ok (tt, {| Net_X := Net_X net; Net_y := Net_y net;
                             Net_weights := zip_with sub (Net_weights net)
                                              (map (mul eta) g) |}))
      by (apply Net_gradient_step_run; congruence).
    destruct (IH {| Net_X := Net_X net; Net_y := Net_y net;
                    Net_weights := zip_with sub (Net_weights net)
                                     (map (mul eta) g) |})
      as (w & E & Lw).
    + exact Hs.
    + simpl. rewrite zip_with_length; [exact Hw|].
      rewrite length_map. congruence.
    + exists w. split; [|exact Lw]. simpl.
      erewrite bind_Ok; [exact E|].
      erewrite bind_Ok by exact G. exact S.
Qed.

(** X10. On well-shaped data [fit] raises nothing, for every number of
    iterations and every learning rate, and changes only the weights:
    [X] and [y] are as before and there are still [D] weights. *)
Theorem fit_keeps_data_and_shape (D : nat) (eta : num) (n_iter : nat)
    (net : Net) :
  well_shaped D (Net_X net) (Net_y net) ->
  length (Net_weights net) = D ->
  exists net',
    Net_fit n_iter eta net = Ok (tt, net')
    /\ Net_X net' = Net_X net
    /\ Net_y net' = Net_y net
    /\ length (Net_weights net') = D.
Proof.
  intros Hs Hw. destruct (Net_fit_run eta n_iter net Hs Hw) as (w & E & Lw).
  eexists. split; [exact E|]. simpl. auto.
Qed.

(** X12. Training can be resumed: [fit] for [a + b] iterations is [fit]
    for [a] iterations followed by [fit] for [b] more, errors included. *)
Theorem fit_resumes (a b : nat) (eta : num) (net : Net) :
  Net_fit (a + b) eta net
  = bind (Net_fit a eta) (fun _ => Net_fit b eta) net.
Proof. unfold Net_fit. apply repeatM_add. Qed.
End LocalModel.

Lemma mean_square_error_shapes_witness :
  @mean_square_error Scalar_Qc [q 1 1; q 2 1] [q 1 1; q 2 1; q 3 1]
  = Raise (ValueError "operands could not be broadcast together")
  /\ @mean_square_error Scalar_Qc [q 1 1] [q 1 1; q 2 1; q 3 1]
     = Ok (@np_mean Scalar_Qc
             (map (fun t => @mul Scalar_Qc (@sub Scalar_Qc t (q 1 1))
                                           (@sub Scalar_Qc t (q 1 1)))
                  [q 1 1; q 2 1; q 3 1])).
Proof.
  split.
  - apply (proj1 (@mean_square_error_shapes Scalar_Qc
                    [q 1 1; q 2 1] [q 1 1; q 2 1; q 3 1] (q 1 1)));
      simpl; lia.
  - apply (proj2 (@mean_square_error_shapes Scalar_Qc
                    [] [q 1 1; q 2 1; q 3 1] (q 1 1))).
    simpl. lia.
Defined.

Lemma gradient_step_shapes_witness :
  let net := @Net_init Scalar_Qc X_a y_a in
  @Net_gradient_step Scalar_Qc [q 1 1; q 2 1] (q 1 2) net
  = Ok (tt, {| Net_X := X_a; Net_y := y_a;
               Net_weights := zip_with (@sub Scalar_Qc) (Net_weights net)
                                (map (@mul Scalar_Qc (q 1 2))
                                     [q 1 1; q 2 1]) |})
  /\ @Net_gradient_step Scalar_Qc [q 1 1; q 2 1; q 3 1] (q 1 2) net
     = Raise (ValueError "non-broadcastable output operand")
  /\ @Net_gradient_step Scalar_Qc [q 1 1] (q 1 2) net
     = Ok (tt, {| Net_X := X_a; Net_y := y_a;
                  Net_weights :=
                    map (fun a => @sub Scalar_Qc a
                                    (@mul Scalar_Qc (q 1 2) (q 1 1)))
                        (Net_weights net) |}).
Proof.
  intros net.
  destruct (@gradient_step_shapes Scalar_Qc net [q 1 1; q 2 1] (q 1 1) (q 1 2))
    as (A & _ & C).
  destruct (@gradient_step_shapes Scalar_Qc net [q 1 1; q 2 1; q 3 1]
              (q 1 1) (q 1 2)) as (_ & B & _).
  split; [apply A; reflexivity|]. split.
  - apply B; simpl; lia.
  - apply C. simpl. lia.
Defined.

Lemma fit_keeps_data_and_shape_witness :
  exists net',
    @Net_fit Scalar_Qc 30 (q 3 2) (Net_init X_a y_a) = Ok (tt, net')
    /\ Net_X net' = X_a /\ Net_y net' = y_a
    /\ length (Net_weights net') = 2.
Proof.
  apply (@fit_keeps_data_and_shape Scalar_Qc 2 (q 3 2) 30 (Net_init X_a y_a)).
  - repeat split; try discriminate; repeat constructor.
  - reflexivity.
Defined.

Lemma fit_keeps_stationary_point_witness :
  let net := @Net_init Scalar_Qc (@Build_ndarray2 Scalar_Qc 1 [[q 1 1]])
               [Q2Qc 0] in
  @Net_fit Scalar_Qc 5 (q 3 2) net = Ok (tt, net).
Proof.
  intros net.
  apply (@fit_keeps_stationary_point Scalar_Qc Qcft net [Q2Qc 0]).
  - unfold Net_compute_gradient, bind, ret. simpl.
    repeat f_equal; try (apply Qc_is_canon; vm_compute; reflexivity).
  - repeat constructor.
  - reflexivity.
Defined.

(** ** The average of the local gradients *)

Lemma zip_with_app {A B C} (f : A -> B -> C) (x1 x2 : list A) :
  forall (y1 y2 : list B),
    length x1 = length y1 ->
    (zip_with f (x1 ++ x2) (y1 ++ y2)
     = zip_with f x1 y1 ++ zip_with f x2 y2)%list.
Proof.
  induction x1 as [|a x1 IH]; intros [|b y1] y2 E; simpl in *;
    try discriminate; [reflexivity|].
  rewrite IH by lia. reflexivity.
Qed.

Lemma concat_length_uniform {A} (m : nat) (ls : list (list A)) :
  Forall (fun l => length l = m) ls -> length (concat ls) = length ls * m.
Proof.
  induction 1 as [|l ls E _ IH]; simpl; [reflexivity|].
  rewrite length_app, IH, E. reflexivity.
Qed.

Section Pooled.
Context `{Scalar}.
Hypothesis Fth : field_theory zero one add mul sub opp div inv (@eq num).
Hypothesis of_nat_mul : forall a b, of_nat (a * b) = mul (of_nat a) (of_nat b).
Hypothesis of_nat_nonzero : forall k, k <> 0 -> of_nat k <> zero.

Add Field num_field_pooled : Fth.

Lemma zip_with_add_zeros (D : nat) : forall v : list num,
  length v = D -> zip_with add (repeat zero D) v = v.
Proof.
  induction D as [|D IH]; intros [|a v] E; simpl in *; try discriminate;
    [reflexivity|].
  rewrite IH by lia. f_equal. ring.
Qed.

Lemma zip_with_add_assoc : forall x y z : list num,
  zip_with add x (zip_with add y z) = zip_with add (zip_with add x y) z.
Proof.
  induction x as [|a x IH]; intros [|b y] [|c z]; simpl; try reflexivity.
  rewrite IH. f_equal. ring.
Qed.

Lemma vecmat_app (D : nat) (r1 r2 : list (list num)) : forall d1 d2,
  length d1 = length r1 ->
  Forall (fun r => length r = D) r2 ->
  vecmat D (d1 ++ d2)%list (r1 ++ r2)%list
  = zip_with add (vecmat D d1 r1) (vecmat D d2 r2).
Proof.
  induction r1 as [|r r1 IH]; intros [|a d1] d2 E H2; simpl in E;
    try discriminate.
  - simpl. symmetry. apply zip_with_add_zeros, vecmat_length, H2.
  - simpl. rewrite IH by (auto; lia). apply zip_with_add_assoc.
Qed.

(** The numerator of the pooled model is the sum of the numerators. *)
Lemma pooled_numerator (D : nat) (w : list num) : forall nets : list Net,
  Forall (fun n => well_shaped D (Net_X n) (Net_y n) /\ Net_weights n = w)
         nets ->
  gradient_numerator D (pooled D w nets)
  = map (fun j => coordinate_sum j (map (gradient_numerator D) nets))
        (seq 0 D).
Proof.
  unfold gradient_numerator, pooled. simpl.
  induction nets as [|n nets IH]; intros Hall.
  - simpl. unfold coordinate_sum. simpl.
    rewrite map_const, length_seq. reflexivity.
  - apply Forall_cons_iff in Hall as [[(Hc & Hr & Hy & _) Hw] Hall].
    simpl. rewrite map_app, zip_with_app by (rewrite length_map; congruence).
    rewrite vecmat_app.
    + rewrite (IH Hall), Hw.
      match goal with
      | |- zip_with add ?V _ = _ =>
          rewrite (list_as_map_nth zero V) at 1;
          rewrite (vecmat_length _ Hr)
      end.
      rewrite zip_with_map. reflexivity.
    + rewrite zip_with_length; rewrite length_map; congruence.
    + apply Forall_concat, Forall_map.
      eapply Forall_impl; [|exact Hall]. intros a [(_ & Ha & _) _]. exact Ha.
Qed.

Lemma coordinate_sum_div (j : nat) (c : num) : forall vs : list (list num),
  coordinate_sum j (map (map (fun e => div e c)) vs)
  = div (coordinate_sum j vs) c.
Proof.
  unfold coordinate_sum.
  induction vs as [|v vs IH]; simpl.
  - rewrite (Fdiv_def Fth). ring.
  - rewrite IH.
    replace (nth j (map (fun e => div e c) v) zero)
      with (div (nth j v zero) c).
    + rewrite !(Fdiv_def Fth). ring.
    + rewrite <- (map_nth (fun e => div e c)). f_equal.
      rewrite (Fdiv_def Fth). ring.
Qed.

Lemma local_gradients (D m : nat) (w : list num) (nets : list Net) gs :
  length w = D ->
  Forall (shard D m w) nets ->
  Forall2 (fun n g => Net_compute_gradient n = Ok (g, n)) nets gs ->
  gs = map (map (fun e => div e (of_nat m))) (map (gradient_numerator D) nets).
Proof.
  intros Lw Hall F. induction F as [|n g nets gs G _ IH]; [reflexivity|].
  apply Forall_cons_iff in Hall as [(Hs & Hm & Hw) Hall].
  simpl. rewrite <- (IH Hall). f_equal.
  rewrite (@Net_compute_gradient_run _ n D Hs) in G by congruence.
  injection G as <-. rewrite Hm. reflexivity.
Qed.

(** X13. When the parties hold the same weights and equally many rows,
    as after [get_data] and any number of rounds, the average of their
    local gradients is the gradient [compute_gradient] returns for one
    model holding all their rows: the gradient of the whole (virtual)
    training set of the module docstring. *)
Theorem average_gradient_is_pooled_gradient (D m : nat) (w : list num)
    (nets : list Net) (gs : list (list num)) :
  nets <> [] ->
  length w = D ->
  Forall (shard D m w) nets ->
  Forall2 (fun n g => Net_compute_gradient n = Ok (g, n)) nets gs ->
  Net_compute_gradient (pooled D w nets) = Ok (average D gs, pooled D w nets).
Proof.
  intros Hne Lw Hall F.
  assert (Hm : m <> 0).
  { destruct nets as [|n nets]; [congruence|].
    apply Forall_cons_iff in Hall as [((_ & _ & _ & Hr) & Hm & _) _].
    intros ->. destruct (rows (Net_X n)); [congruence|discriminate]. }
  assert (HN : length nets <> 0) by (destruct nets; [congruence|discriminate]).
  assert (Lrows : length (concat (map (fun n => rows (Net_X n)) nets))
                  = length nets * m).
  { rewrite (@concat_length_uniform _ m), length_map; [reflexivity|].
    apply Forall_map. eapply Forall_impl; [|exact Hall].
    intros a (_ & Ha & _). exact Ha. }
  assert (Hs : well_shaped D (Net_X (pooled D w nets)) (Net_y (pooled D w nets))).
  { simpl. repeat split.
    - apply Forall_concat, Forall_map. eapply Forall_impl; [|exact Hall].
      intros a ((_ & Ha & _) & _). exact Ha.
    - etransitivity; [|symmetry; exact Lrows].
      rewrite (@concat_length_uniform _ m), length_map; [reflexivity|].
      apply Forall_map. eapply Forall_impl; [|exact Hall].
      intros a ((_ & _ & Ha & _) & Hb & _). congruence.
    - intros E. simpl in E.
      assert (Z : length nets * m = 0) by (rewrite <- Lrows, E; reflexivity).
      apply Nat.eq_mul_0 in Z. tauto. }
  rewrite (@Net_compute_gradient_run _ (pooled D w nets) D Hs Lw).
  do 2 f_equal.
  fold (gradient_numerator D (pooled D w nets)).
  rewrite pooled_numerator.
  - rewrite (local_gradients Lw Hall F). unfold average, sum_over.
    rewrite map_map, !length_map. apply map_ext. intros j.
    rewrite coordinate_sum_div. simpl rows. rewrite Lrows, of_nat_mul.
    field. split; apply of_nat_nonzero; assumption.
  - eapply Forall_impl; [|exact Hall]. intros a (Ha & _ & Hb). auto.
Qed.
End Pooled.

Lemma of_nat_Qc_mul (a b : nat) :
  @of_nat Scalar_Qc (a * b)
  = @mul Scalar_Qc (@of_nat Scalar_Qc a) (@of_nat Scalar_Qc b).
Proof.
  simpl. apply Qc_is_canon.
  unfold Qcmult, Q2Qc. cbn [this].
  rewrite !Qred_correct, Nat2Z.inj_mul, inject_Z_mult. reflexivity.
Qed.

Lemma average_gradient_is_pooled_gradient_witness :
  let n := @Net_init Scalar_Qc X_a y_a in
  let g := map (fun e => @div Scalar_Qc e (@of_nat Scalar_Qc 2))
               (gradient_numerator 2 n) in
  Net_compute_gradient (pooled 2 (Net_weights n) [n; n])
  = Ok (average 2 [g; g], pooled 2 (Net_weights n) [n; n]).
Proof.
  intros n g.
  apply (@average_gradient_is_pooled_gradient Scalar_Qc Qcft
           of_nat_Qc_mul of_nat_Qc_nonzero 2 2 (Net_weights n) [n; n] [g; g]).
  - discriminate.
  - reflexivity.
  - repeat constructor; discriminate.
  - repeat constructor.
Defined.

Section NoisyAggregate.
Context `{Paillier}.
Hypothesis Fth : field_theory zero one add mul sub opp div inv (@eq num).
Context {Hom : AdditivelyHomomorphic}.

Add Field num_field_noise : Fth.

Lemma coordinate_sum_shifted (D j : nat) : forall (gs : list (list num)) noises,
  j < D ->
  Forall (fun g => length g = D) gs ->
  length noises = length gs ->
  coordinate_sum j (zip_with (fun g nz => map (fun x => add x nz) g) gs noises)
  = add (coordinate_sum j gs) (fold_right add zero noises).
Proof.
  unfold coordinate_sum.
  induction gs as [|g gs IH]; intros [|nz noises] Hj Hall L; simpl in L;
    try discriminate.
  - simpl. ring.
  - apply Forall_cons_iff in Hall as [Hg Hall]. simpl.
    rewrite IH by (auto; lia).
    rewrite (nth_indep _ zero (add zero nz))
      by (rewrite length_map; lia).
    rewrite (map_nth (fun x => add x nz)). ring.
Qed.

(** X14. The noise the parties add does not distort the aggregate
    coordinate by coordinate: what the server decrypts is the average of
    the parties' noise-free gradients with one and the same number, the
    mean of the parties' noise draws, added to every coordinate. *)
Theorem noisy_aggregate_is_shifted_average (server : Server) (D : nat)
    (gs : list (list num)) (noises : list num)
    (encs : list (list EncryptedNumber)) :
  key_pair_of server ->
  gs <> [] ->
  Server_n_clients server = length gs ->
  Forall (fun g => length g = D) gs ->
  length noises = length gs ->
  Forall2 (encrypts (Server_pubkey server)) encs
          (zip_with (fun g nz => map (fun x => add x nz) g) gs noises) ->
  server_round server encs
  = Ok (map (fun a => add a (div (fold_right add zero noises)
                                 (of_nat (length gs))))
            (average D gs)).
Proof.
  intros K Hne Hn Hall L E.
  set (noisy := zip_with (fun g nz => map (fun x => add x nz) g) gs noises)
    in *.
  assert (Hnoisy : Forall (fun g => length g = D) noisy).
  { subst noisy. clear E Hne Hn. revert noises L.
    induction Hall as [|g gs Hg _ IH]; intros [|nz noises] L; simpl in L;
      try discriminate; simpl; constructor.
    - rewrite length_map. exact Hg.
    - apply IH. lia. }
  destruct (encrypts_all K Hnoisy E) as [Hdec Hlen].
  rewrite (@aggregate_encrypted _ _ Fth Hom server D encs); [| | |exact Hlen].
  - rewrite Hdec, Hn. unfold average, sum_over. rewrite map_map.
    f_equal. apply map_ext_in. intros j Hj. apply in_seq in Hj.
    subst noisy. rewrite (@coordinate_sum_shifted D) by (auto; lia).
    rewrite !(Fdiv_def Fth). ring.
  - rewrite Hn. destruct gs; [congruence|discriminate].
  - intros ->. inversion E as [Hz|]. subst noisy.
    destruct gs as [|g gs]; [congruence|].
    destruct noises as [|nz noises]; simpl in *; discriminate.
Qed.
End NoisyAggregate.

Lemma noisy_aggregate_is_shifted_average_witness :
  let noises : list (@num Scalar_Qc) := [q 1 200; q 1 300; q 1 400] in
  let noisy := zip_with (fun g nz => map (fun x => @add Scalar_Qc x nz) g)
                        gradients_3 noises in
  server_round server_3
    (map (map (@pk_encrypt Scalar_Qc (MaskCipher Scalar_Qc) (q 7 1) (q 2 1)))
         noisy)
  = Ok (map (fun a => @add Scalar_Qc a
                        (@div Scalar_Qc (fold_right (@add Scalar_Qc)
                                           (@zero Scalar_Qc) noises)
                              (@of_nat Scalar_Qc 3)))
            (average 2 gradients_3)).
Proof.
  intros noises noisy.
  apply (@noisy_aggregate_is_shifted_average Scalar_Qc (MaskCipher Scalar_Qc)
           Qcft MaskCipher_Qc_homomorphic server_3 2 gradients_3 noises).
  - exact server_3_keys.
  - discriminate.
  - reflexivity.
  - repeat constructor.
  - reflexivity.
  - repeat constructor; exists (q 2 1); reflexivity.
Defined.

(** ** Whole sessions *)

Lemma mapR_in {A B} (f : A -> result B) (P : A -> B -> Prop) (xs : list A) :
  (forall a, In a xs -> exists b, f a = Ok b /\ P a b) ->
  exists bs, mapR f xs = Ok bs /\ Forall2 P xs bs.
Proof.
  induction xs as [|x xs IH]; intros Hf.
  - exists []. split; [reflexivity|constructor].
  - destruct (Hf x (or_introl eq_refl)) as (b & Eb & Pb).
    destruct IH as (bs & Ebs & Pbs); [intros a Ha; apply Hf; right; exact Ha|].
    exists (b :: bs). simpl. rewrite Eb. simpl. rewrite Ebs.
    split; [reflexivity|constructor; assumption].
Qed.

Lemma mapR_raises {A B} (f : A -> result B) (ex : exception) (xs : list A) :
  (forall a, In a xs -> f a = Raise ex \/ exists b, f a = Ok b) ->
  (exists a, In a xs /\ f a = Raise ex) ->
  mapR f xs = Raise ex.
Proof.
  induction xs as [|x xs IH]; intros Hall (a & Ha & Ea); [destruct Ha|].
  simpl. destruct (Hall x (or_introl eq_refl)) as [E|(b & E)]; rewrite E;
    [reflexivity|].
  simpl. rewrite IH; [reflexivity| |].
  - intros a' Ha'. apply Hall. right. exact Ha'.
  - destruct Ha as [<-|Ha]; [congruence|]. exists a. auto.
Qed.

Lemma mapR_map {A B C} (f : B -> result C) (h : A -> B) (xs : list A) :
  mapR f (map h xs) = mapR (fun a => f (h a)) xs.
Proof.
  induction xs as [|x xs IH]; simpl; [reflexivity|]. rewrite IH. reflexivity.
Qed.

Section Sessions.
Context `{Paillier}.

Lemma report_mse_run (X_test : ndarray2) (y_test : list num) (c : Party) :
  ncols X_test = length (Net_weights (Party_model c)) ->
  length y_test = length (rows X_test) ->
  report_mse X_test y_test c
  = Ok (Party_name c,
        np_mean (map (fun e => mul e e)
                     (zip_with sub y_test
                        (map (fun r => inner r (Net_weights (Party_model c)))
                             (rows X_test))))).
Proof.
  intros Hc Hy.
  unfold report_mse, Net_predict, bind, get, liftR, dot_mv.
  rewrite Hc, Nat.eqb_refl. simpl.
  rewrite mean_square_error_run by (rewrite length_map; congruence).
  reflexivity.
Qed.

Lemma report_mse_name (X_test : ndarray2) (y_test : list num) (c : Party) r :
  report_mse X_test y_test c = Ok r -> fst r = Party_name c.
Proof.
  unfold report_mse, bindR.
  destruct (Net_predict X_test (Party_model c)) as [p|]; [|discriminate].
  destruct (mean_square_error (fst p) y_test) as [m|]; [|discriminate].
  intros E. injection E as <-. reflexivity.
Qed.

Lemma report_mse_weights (X_test : ndarray2) (y_test : list num)
    (c1 c2 : Party) r1 r2 :
  Net_weights (Party_model c1) = Net_weights (Party_model c2) ->
  report_mse X_test y_test c1 = Ok r1 ->
  report_mse X_test y_test c2 = Ok r2 ->
  snd r1 = snd r2.
Proof.
  intros Hw. unfold report_mse, Net_predict, bind, get, liftR, bindR.
  rewrite Hw.
  destruct (dot_mv X_test (Net_weights (Party_model c2))) as [p|];
    [|discriminate].
  simpl. destruct (mean_square_error p y_test) as [m|]; [|discriminate].
  intros E1 E2. injection E1 as <-. injection E2 as <-. reflexivity.
Qed.

Lemma gradient_steps_frame (aggregate : list num) (eta : num) :
  forall cs cs' : list Party,
    mapR (Party_gradient_step aggregate eta) cs = Ok cs' ->
    Forall2 same_party_data cs cs'.
Proof.
  induction cs as [|c cs IH]; intros cs' E; simpl in E.
  - injection E as <-. constructor.
  - rewrite Party_gradient_step_run in E.
    destruct (broadcast_inplace sub _ _) as [w1|]; [|discriminate].
    simpl in E. destruct (mapR _ cs) as [cs1|]; [|discriminate].
    simpl in E. injection E as <-.
    constructor; [|apply IH; reflexivity].
    unfold same_party_data. simpl. auto.
Qed.

Lemma same_party_data_chain (cs1 cs2 cs3 : list Party) :
  Forall2 same_party_data cs1 cs2 ->
  Forall2 same_party_data cs2 cs3 ->
  Forall2 same_party_data cs1 cs3.
Proof.
  intros F. revert cs3.
  induction F as [|a b cs1 cs2 (A1 & A2 & A3 & A4) _ IH]; intros cs3 G;
    inversion G as [|b' c' cs2' cs3' (B1 & B2 & B3 & B4) G']; subst;
    constructor; [|apply IH; exact G'].
  unfold same_party_data. repeat split; congruence.
Qed.

(** X15. Rounds of training change nothing but weights: after any number
    of completed rounds the parties are the same ones in the same order,
    each with the name, the training data and the public key it started
    with. *)
Theorem hybrid_rounds_keep_party_data (server : Server) (eta : num) (k : nat) :
  forall (cs cs' : list Party) (e e' : Entropy),
    hybrid_rounds k server eta cs e = Ok (cs', e') ->
    Forall2 same_party_data cs cs'.
Proof.
  induction k as [|k IH]; intros cs cs' e e' E; simpl in E.
  - unfold ret in E. injection E as <- <-.
    induction cs as [|c cs IHcs]; constructor; [|exact IHcs].
    unfold same_party_data. auto.
  - apply bind_Ok_inv in E as (cs1 & e1 & R & E).
    destruct (hybrid_round_inv _ _ _ _ R) as (gs & agg & _ & _ & Hstep).
    eapply same_party_data_chain; [exact (gradient_steps_frame _ _ _ Hstep)|].
    eapply IH, E.
Qed.

Lemma parties_of_nil pk n (X : list ndarray2) (y : list (list num)) :
  Nat.min n (Nat.min (length X) (length y)) = 0 ->
  parties_of pk n X y = [].
Proof.
  intros Z. pose proof (parties_of_length pk n X y) as L.
  rewrite Z in L. destruct (parties_of pk n X y); [reflexivity|discriminate].
Qed.

(** X16. A session without parties ([n_clients = 0], or no data given)
    fails in its first round with [TypeError]: [np.sum] of the empty list
    is a float, which [decrypt_vector] cannot iterate over.  With
    [n_iter = 0] the same session ends normally with an empty report. *)
Theorem hybrid_learning_without_parties (X : list ndarray2)
    (y : list (list num)) (X_test : ndarray2) (y_test : list num)
    (config : Config) (e : Entropy) :
  Nat.min (n_clients config) (Nat.min (length X) (length y)) = 0 ->
  (n_iter config <> 0 ->
   hybrid_learning X y X_test y_test config e
   = Raise (TypeError "'numpy.float64' object is not iterable"))
  /\ (n_iter config = 0 ->
      exists e', hybrid_learning X y X_test y_test config e = Ok (([], []), e')).
Proof.
  intros Z.
  destruct (hybrid_setup_run X y config e) as (server & e1 & E & _).
  rewrite (parties_of_nil _ _ _ _ Z) in E.
  unfold hybrid_learning. split; intros Hn.
  - erewrite bind_Ok by exact E. simpl.
    destruct (n_iter config) as [|n]; [congruence|]. reflexivity.
  - exists e1. erewrite bind_Ok by exact E. simpl. rewrite Hn. reflexivity.
Qed.

Lemma hybrid_learning_reports (D : nat) (X : list ndarray2)
    (y : list (list num)) (X_test : ndarray2) (y_test : list num)
    (config : Config) (e e' : Entropy) (clients : list Party)
    (report : list (string * num)) :
  Forall2 (well_shaped D) X y ->
  hybrid_learning X y X_test y_test config e = Ok ((clients, report), e') ->
  length report = Nat.min (n_clients config) (length X)
  /\ map fst report = map Party_name clients
  /\ forall r1 r2, In r1 report -> In r2 report -> snd r1 = snd r2.
Proof.
  intros W Run.
  destruct (hybrid_setup_run X y config e) as (server & e1 & E & I).
  destruct (@parties_of_start _ _ D (Server_pubkey server) X y
              (hospital_names (n_clients config)) W) as [R Z].
  fold (parties_of (Server_pubkey server) (n_clients config) X y) in R, Z.
  unfold hybrid_learning in Run.
  erewrite bind_Ok in Run by exact E. simpl in Run.
  apply bind_Ok_inv in Run as (cs & e2 & Rounds & Run).
  apply bind_Ok_inv in Run as (rep & e3 & Erep & Run).
  unfold ret in Run. injection Run as <- <- <-.
  apply liftR_Ok_inv in Erep as [Erep _].
  assert (Id : identical_weights cs).
  { eapply hybrid_rounds_identical; [|exact Rounds].
    rewrite Forall_forall in Z. intros c1 c2 H1 H2.
    rewrite (Z c1 H1), (Z c2 H2). reflexivity. }
  pose proof (mapR_Forall2 _ _ Erep) as F.
  split; [|split].
  - rewrite (mapR_length _ _ Erep), (hybrid_rounds_length _ _ _ _ _ Rounds).
    rewrite parties_of_length, <- (Forall2_length W), Nat.min_id.
    reflexivity.
  - clear - F. induction F as [|c r cs rep Hr _ IH]; [reflexivity|].
    simpl. rewrite (report_mse_name _ _ _ Hr), IH. reflexivity.
  - intros r1 r2 H1 H2.
    destruct (Forall2_In_r F r1 H1) as (c1 & Hc1 & E1).
    destruct (Forall2_In_r F r2 H2) as (c2 & Hc2 & E2).
    exact (report_mse_weights _ _ _ _ (Id c1 c2 Hc1 Hc2) E1 E2).
Qed.

(** X17. On well-shaped data, whenever [hybrid_learning] runs to the end
    it reports one error per party, under the party's name and in the
    order of the parties; since all parties end with the same weights, all
    reported errors are equal.  Nothing is said of the runs that raise. *)
Theorem hybrid_learning_reports_one_error (D : nat) (X : list ndarray2)
    (y : list (list num)) (X_test : ndarray2) (y_test : list num)
    (config : Config) (e e' : Entropy) (clients : list Party)
    (report : list (string * num)) :
  Forall2 (well_shaped D) X y ->
  hybrid_learning X y X_test y_test config e = Ok ((clients, report), e') ->
  length report = Nat.min (n_clients config) (length X)
  /\ map fst report = map Party_name clients
  /\ forall r1 r2, In r1 report -> In r2 report -> snd r1 = snd r2.
Proof. apply hybrid_learning_reports. Qed.
End Sessions.

Lemma hybrid_rounds_keep_party_data_witness :
  exists cs' e',
    hybrid_rounds 2 server_3 (q 1 100) parties_3 entropy_Qc = Ok (cs', e')
    /\ Forall2 same_party_data parties_3 cs'.
Proof.
  destruct (@hybrid_rounds_run Scalar_Qc (MaskCipher Scalar_Qc) 2 server_3
              (q 1 100) 2 parties_3 entropy_Qc)
    as (cs' & e' & E & _).
  - discriminate.
  - discriminate.
  - exact parties_3_ready.
  - exists cs', e'. split; [exact E|].
    exact (@hybrid_rounds_keep_party_data Scalar_Qc (MaskCipher Scalar_Qc)
             server_3 (q 1 100) 2 parties_3 cs' entropy_Qc e' E).
Defined.

Lemma hybrid_learning_without_parties_witness :
  @hybrid_learning Scalar_Qc (MaskCipher Scalar_Qc)
    [X_a] [y_a] X_test2 y_test2 (config_of 0 1024 3) entropy_Qc
  = Raise (TypeError "'numpy.float64' object is not iterable")
  /\ exists e',
       @hybrid_learning Scalar_Qc (MaskCipher Scalar_Qc)
         [] [] X_test2 y_test2 (config_of 3 1024 0) entropy_Qc
       = Ok (([], []), e').
Proof.
  split.
  - apply (proj1 (@hybrid_learning_without_parties Scalar_Qc
                    (MaskCipher Scalar_Qc) [X_a] [y_a] X_test2 y_test2
                    (config_of 0 1024 3) entropy_Qc eq_refl)).
    discriminate.
  - apply (proj2 (@hybrid_learning_without_parties Scalar_Qc
                    (MaskCipher Scalar_Qc) [] [] X_test2 y_test2
                    (config_of 3 1024 0) entropy_Qc eq_refl)).
    reflexivity.
Defined.

Lemma hybrid_learning_reports_one_error_witness :
  exists clients report e',
    @hybrid_learning Scalar_Qc (MaskCipher Scalar_Qc)
      [X_a; X_b; X_c] [y_a; y_b; y_c] X_test2 y_test2 (config_of 3 1024 2)
      entropy_Qc
    = Ok ((clients, report), e')
    /\ length report = 3
    /\ map fst report = map Party_name clients
    /\ forall r1 r2, In r1 report -> In r2 report -> snd r1 = snd r2.
Proof.
  destruct (completes_Ok
              (@hybrid_learning Scalar_Qc (MaskCipher Scalar_Qc)
                 [X_a; X_b; X_c] [y_a; y_b; y_c] X_test2 y_test2
                 (config_of 3 1024 2) entropy_Qc))
    as [[[clients report] e'] E]; [vm_compute; reflexivity|].
  exists clients, report, e'. split; [exact E|].
  exact (@hybrid_learning_reports_one_error Scalar_Qc (MaskCipher Scalar_Qc) 2
           [X_a; X_b; X_c] [y_a; y_b; y_c] X_test2 y_test2
           (config_of 3 1024 2) entropy_Qc e' clients report
           data_3_well_shaped E).
Defined.

(** ** local_learning *)

Lemma Forall2_nth_error {A B} (P : A -> B -> Prop) (xs : list A) (ys : list B) :
  Forall2 P xs ys ->
  forall i a b, nth_error xs i = Some a -> nth_error ys i = Some b -> P a b.
Proof.
  induction 1 as [|x y xs ys Pxy _ IH]; intros [|i] a b Ea Eb; simpl in *;
    try discriminate.
  - congruence.
  - eapply IH; eassumption.
Qed.

Lemma nth_error_of_seq {A} (l L : list A) : forall (a : nat) (bs : list A),
  (forall i, i < length l -> nth_error L (a + i) = nth_error l i) ->
  Forall2 (fun i b => nth_error L i = Some b) (seq a (length l)) bs ->
  bs = l.
Proof.
  induction l as [|x l IH]; intros a bs Hl F; simpl in F.
  - inversion F. reflexivity.
  - inversion F as [|i b idx bs' Hb F']; subst. f_equal.
    + pose proof (Hl 0 (Nat.lt_0_succ _)) as E0.
      rewrite Nat.add_0_r in E0. simpl in E0. congruence.
    + apply (IH (S a)); [|exact F'].
      intros i Hi. specialize (Hl (S i)). simpl in Hl.
      rewrite <- Hl by lia. f_equal. lia.
Qed.

Section LocalLearning.
Context `{Paillier}.

(** X18. [local_learning] indexes the data by client number: when there
    are fewer matrices or fewer target vectors than [n_clients] it raises
    [IndexError], where [hybrid_learning] silently runs with fewer
    parties. *)
Theorem local_learning_needs_data_for_every_client (X : list ndarray2)
    (y : list (list num)) (X_test : ndarray2) (y_test : list num)
    (config : Config) :
  length X < n_clients config \/ length y < n_clients config ->
  local_learning X y X_test y_test config
  = Raise (IndexError "list index out of range").
Proof.
  intros Short. unfold local_learning.
  replace (local_setup X y config)
    with (@Raise (list Party) (IndexError "list index out of range"));
    [reflexivity|].
  symmetry. unfold local_setup. apply mapR_raises.
  - intros i _.
    destruct (nth_error _ i), (nth_error X i), (nth_error y i); eauto.
  - destruct Short as [S|S].
    + exists (length X). split; [apply in_seq; lia|].
      rewrite (proj2 (nth_error_None X (length X))) by lia.
      destruct (nth_error _ (length X)); reflexivity.
    + exists (length y). split; [apply in_seq; lia|].
      rewrite (proj2 (nth_error_None y (length y))) by lia.
      destruct (nth_error _ (length y)), (nth_error X (length y));
        reflexivity.
Qed.

Lemma local_setup_run D (X : list ndarray2) (y : list (list num))
    (config : Config) :
  Forall2 (well_shaped D) X y ->
  n_clients config <= length X ->
  exists clients,
    local_setup X y config = Ok clients
    /\ map Party_name clients = hospital_names (n_clients config)
    /\ Forall (fun c => well_shaped D (Net_X (Party_model c))
                                    (Net_y (Party_model c))
                        /\ length (Net_weights (Party_model c)) = D)
              clients.
Proof.
  intros W Hn. unfold local_setup.
  destruct (@mapR_in _ _
              (fun i =>
                 match nth_error (hospital_names (n_clients config)) i,
                       nth_error X i, nth_error y i with
                 | Some name, Some Xi, Some yi => Ok (Party_init name Xi yi None)
                 | _, _, _ => Raise (IndexError "list index out of range")
                 end)
              (fun i c =>
                 nth_error (hospital_names (n_clients config)) i
                 = Some (Party_name c)
                 /\ well_shaped D (Net_X (Party_model c)) (Net_y (Party_model c))
                 /\ length (Net_weights (Party_model c)) = D)
              (seq 0 (n_clients config)))
    as (clients & E & F).
  { intros i Hi. apply in_seq in Hi.
    pose proof (Forall2_length W) as Lxy.
    destruct (nth_error (hospital_names (n_clients config)) i) as [name|] eqn:En;
      [|apply nth_error_None in En; rewrite hospital_names_length in En; lia].
    destruct (nth_error X i) as [Xi|] eqn:EX;
      [|apply nth_error_None in EX; lia].
    destruct (nth_error y i) as [yi|] eqn:Ey;
      [|apply nth_error_None in Ey; lia].
    eexists. split; [reflexivity|]. simpl.
    pose proof (Forall2_nth_error W i EX Ey) as Wi.
    split; [reflexivity|]. split; [exact Wi|].
    unfold np_zeros. rewrite repeat_length. apply Wi. }
  exists clients. split; [exact E|]. split.
  - apply (@nth_error_of_seq _ (hospital_names (n_clients config))
             (hospital_names (n_clients config)) 0).
    + intros i _. reflexivity.
    + rewrite hospital_names_length.
      clear E. induction F as [|i c idx cs (Hc & _) _ IH]; simpl;
        constructor; assumption.
  - clear E. induction F as [|i c idx cs (_ & Hc) _ IH]; constructor; assumption.
Qed.

Lemma local_learning_ok (D : nat) (X : list ndarray2)
    (y : list (list num)) (X_test : ndarray2) (y_test : list num)
    (config : Config) :
  Forall2 (well_shaped D) X y ->
  n_clients config <= length X ->
  ncols X_test = D ->
  length y_test = length (rows X_test) ->
  exists report,
    local_learning X y X_test y_test config = Ok report
    /\ map fst report = hospital_names (n_clients config).
Proof.
  intros W Hn Hc Hy.
  destruct (local_setup_run config W Hn) as (clients & E & Names & Shapes).
  unfold local_learning. rewrite E. simpl.
  match goal with
  | |- exists report, mapR ?f clients = Ok report /\ _ =>
      destruct (@mapR_in _ _ f (fun c r => fst r = Party_name c) clients)
        as (report & Er & Fr)
  end.
  { intros c Hin. rewrite Forall_forall in Shapes.
    destruct (Shapes c Hin) as [Hs Hw].
    destruct (@Net_fit_run _ D (eta config) (n_iter config)
                (Party_model c) Hs Hw) as (w & Ef & Lw).
    rewrite Ef. simpl.
    rewrite report_mse_run by (simpl; congruence).
    eexists. split; reflexivity. }
  exists report. split; [exact Er|].
  rewrite <- Names. clear Er E Names Shapes.
  induction Fr as [|c r cs rs Hr _ IH]; simpl; congruence.
Qed.

(** X19. Given well-shaped data for every configured client and a test
    set of matching shape, [local_learning] raises nothing, for every
    number of iterations and learning rate, and reports one error per
    client under the names [Hospital 1], [Hospital 2], ... in order. *)
Theorem local_learning_reports_every_client (D : nat) (X : list ndarray2)
    (y : list (list num)) (X_test : ndarray2) (y_test : list num)
    (config : Config) :
  Forall2 (well_shaped D) X y ->
  n_clients config <= length X ->
  ncols X_test = D ->
  length y_test = length (rows X_test) ->
  exists report,
    local_learning X y X_test y_test config = Ok report
    /\ map fst report = hospital_names (n_clients config).
Proof. apply local_learning_ok. Qed.
End LocalLearning.

Lemma local_learning_needs_data_for_every_client_witness :
  @local_learning Scalar_Qc (MaskCipher Scalar_Qc)
    [X_a; X_b] [y_a; y_b] X_test2 y_test2 (config_of 3 1024 2)
  = Raise (IndexError "list index out of range").
Proof.
  apply (@local_learning_needs_data_for_every_client Scalar_Qc
           (MaskCipher Scalar_Qc)).
  left. simpl. lia.
Defined.

Lemma local_learning_reports_every_client_witness :
  exists report,
    @local_learning Scalar_Qc (MaskCipher Scalar_Qc)
      [X_a; X_b; X_c] [y_a; y_b; y_c] X_test2 y_test2 (config_of 3 1024 2)
    = Ok report
    /\ map fst report = hospital_names 3.
Proof.
  apply (@local_learning_reports_every_client Scalar_Qc (MaskCipher Scalar_Qc)
           2 [X_a; X_b; X_c] [y_a; y_b; y_c] X_test2 y_test2
           (config_of 3 1024 2) data_3_well_shaped).
  - simpl. lia.
  - reflexivity.
  - reflexivity.
Defined.

(** ** The split of the training rows *)

Lemma firstn_app_skipn {A} (a b : nat) : forall l : list A,
  (firstn a l ++ firstn b (skipn a l))%list = firstn (a + b) l.
Proof.
  induction a as [|a IH]; intros [|x l]; simpl; try reflexivity.
  - rewrite firstn_nil. reflexivity.
  - rewrite IH. reflexivity.
Qed.

Lemma slices_concat {A} (s n : nat) (l : list A) :
  concat (map (fun c => py_slice (s * c) (s * (c + 1)) l) (seq 0 n))
  = firstn (s * n) l.
Proof.
  induction n as [|n IH].
  - rewrite Nat.mul_0_r. reflexivity.
  - rewrite seq_S, map_app, concat_app, IH. simpl.
    rewrite app_nil_r. unfold py_slice.
    replace (s * (n + 1) - s * n) with s by lia.
    rewrite firstn_app_skipn. f_equal. lia.
Qed.

Lemma slice_length {A} (s c : nat) (l : list A) :
  s * (c + 1) <= length l ->
  length (py_slice (s * c) (s * (c + 1)) l) = s.
Proof.
  intros L. unfold py_slice. rewrite length_firstn, length_skipn. lia.
Qed.

Lemma slice_In {A} (a b : nat) (l : list A) (x : A) :
  In x (py_slice a b l) -> In x l.
Proof.
  unfold py_slice. intros Hin.
  rewrite <- (firstn_skipn a l). apply in_or_app. right.
  rewrite <- (firstn_skipn (b - a) (skipn a l)). apply in_or_app. left.
  exact Hin.
Qed.

Lemma Forall2_map_same {A B C} (P : B -> C -> Prop) (f : A -> B) (g : A -> C)
    (l : list A) :
  (forall a, In a l -> P (f a) (g a)) -> Forall2 P (map f l) (map g l).
Proof.
  induction l as [|a l IH]; intros Hl; simpl; constructor.
  - apply Hl. left. reflexivity.
  - apply IH. intros b Hb. apply Hl. right. exact Hb.
Qed.

Section Split.
Context `{Scalar}.

Lemma get_data_split_ok (X_train : ndarray2) (y_train : list num)
    (n : nat) :
  Forall (fun r => length r = ncols X_train) (rows X_train) ->
  length y_train = length (rows X_train) ->
  1 <= n ->
  n <= length (rows X_train) ->
  exists Xs ys,
    get_data_split X_train y_train n = Ok (Xs, ys)
    /\ length Xs = n
    /\ Forall2 (well_shaped (ncols X_train)) Xs ys
    /\ Forall (fun Xi => length (rows Xi) = length (rows X_train) / n) Xs.
Proof.
  intros Hr Hy H1 Hn. unfold get_data_split.
  replace (n =? 0) with false by (symmetry; apply Nat.eqb_neq; lia).
  set (m := length (rows X_train)) in *. set (s := m / n).
  assert (Hs : 1 <= s) by (apply Nat.div_le_lower_bound; lia).
  assert (Hsn : s * n <= m) by (rewrite Nat.mul_comm; apply Nat.Div0.mul_div_le).
  assert (Hc : forall c, In c (seq 0 n) -> s * (c + 1) <= m).
  { intros c Hin. apply in_seq in Hin.
    apply Nat.le_trans with (s * n); [apply Nat.mul_le_mono_l; lia|exact Hsn]. }
  eexists; eexists. split; [reflexivity|]. split; [|split].
  - rewrite length_map, length_seq. reflexivity.
  - apply Forall2_map_same. intros c Hin. specialize (Hc c Hin).
    unfold well_shaped. simpl. repeat split.
    + apply Forall_forall. intros r Hin'. apply slice_In in Hin'.
      rewrite Forall_forall in Hr. apply Hr, Hin'.
    + rewrite !slice_length; fold m; lia.
    + intros E. apply (f_equal (@length _)) in E.
      rewrite slice_length in E by (fold m; lia). simpl in E. lia.
  - apply Forall_map, Forall_forall. intros c Hin. simpl.
    apply slice_length, Hc, Hin.
Qed.

(** X20. For a rectangular training matrix of [m] rows with [m] targets
    and [1 <= n_clients <= m], the split gives each of the [n_clients]
    clients exactly [m // n_clients] rows with as many targets: data of
    the shape the training functions expect, of equal size for all. *)
Theorem get_data_split_shapes (X_train : ndarray2) (y_train : list num)
    (n : nat) :
  Forall (fun r => length r = ncols X_train) (rows X_train) ->
  length y_train = length (rows X_train) ->
  1 <= n ->
  n <= length (rows X_train) ->
  exists Xs ys,
    get_data_split X_train y_train n = Ok (Xs, ys)
    /\ length Xs = n
    /\ Forall2 (well_shaped (ncols X_train)) Xs ys
    /\ Forall (fun Xi => length (rows Xi) = length (rows X_train) / n) Xs.
Proof. apply get_data_split_ok. Qed.

(** X21. The clients' rows are consecutive, disjoint slices in the
    original order: put end to end they are the first
    [(m // n_clients) * n_clients] training rows (and targets), so that
    fewer than [n_clients] rows at the end are given to nobody.  With
    [n_clients = 0] the split raises [ZeroDivisionError]. *)
Theorem get_data_split_consecutive (X_train : ndarray2) (y_train : list num)
    (n : nat) :
  (n = 0 ->
   get_data_split X_train y_train n
   = Raise (ZeroDivisionError "division by zero"))
  /\ (n <> 0 ->
      let m := length (rows X_train) in
      exists Xs ys,
        get_data_split X_train y_train n = Ok (Xs, ys)
        /\ concat (map (fun Xi => rows Xi) Xs)
           = firstn (m / n * n) (rows X_train)
        /\ concat ys = firstn (m / n * n) y_train
        /\ m - m / n * n < n).
Proof.
  split.
  - intros ->. reflexivity.
  - intros Hn m. unfold get_data_split. fold m.
    replace (n =? 0) with false by (symmetry; apply Nat.eqb_neq; exact Hn).
    eexists; eexists. split; [reflexivity|]. split; [|split].
    + rewrite map_map. simpl. apply slices_concat.
    + apply slices_concat.
    + pose proof (Nat.mod_upper_bound m n Hn) as U.
      rewrite (Nat.Div0.mod_eq m n) in U. lia.
Qed.
End Split.

Lemma get_data_split_shapes_witness :
  exists Xs ys,
    get_data_split X_train5 y_train5 2 = Ok (Xs, ys)
    /\ length Xs = 2
    /\ Forall2 (well_shaped 2) Xs ys
    /\ Forall (fun Xi => length (rows Xi) = 2) Xs.
Proof.
  apply (@get_data_split_shapes Scalar_Qc X_train5 y_train5 2).
  - repeat constructor.
  - reflexivity.
  - lia.
  - simpl. lia.
Defined.

Lemma get_data_split_consecutive_witness :
  @get_data_split Scalar_Qc X_train5 y_train5 0
  = Raise (ZeroDivisionError "division by zero")
  /\ exists Xs ys,
       get_data_split X_train5 y_train5 2 = Ok (Xs, ys)
       /\ concat (map (fun Xi => rows Xi) Xs) = firstn 4 (rows X_train5)
       /\ concat ys = firstn 4 y_train5
       /\ 5 - 4 < 2.
Proof.
  split.
  - apply (proj1 (@get_data_split_consecutive Scalar_Qc X_train5 y_train5 0)).
    reflexivity.
  - apply (proj2 (@get_data_split_consecutive Scalar_Qc X_train5 y_train5 2)).
    discriminate.
Defined.

(** ** get_data as a whole *)

Lemma take_run {A} (d : A) (l : list A) : forall idx,
  Forall (fun i => i < length l) idx ->
  take idx l = Ok (gather d idx l).
Proof.
  unfold take, gather.
  induction 1 as [|i idx Hi _ IH]; simpl; [reflexivity|].
  rewrite (nth_error_nth' l d Hi). simpl. rewrite IH. reflexivity.
Qed.

Lemma mask_out_run {A} (d : A) (idx : list nat) (l : list A) :
  mask_out idx l = gather d (kept idx (length l)) l.
Proof.
  unfold mask_out, gather, kept.
  assert (G : forall positions,
             Forall (fun i => i < length l) positions ->
             flat_map (fun i => if existsb (Nat.eqb i) idx then []
                                else match nth_error l i with
                                     | Some a => [a]
                                     | None => []
                                     end) positions
             = map (fun i => nth i l d)
                   (filter (fun i => negb (existsb (Nat.eqb i) idx))
                           positions)).
  { induction 1 as [|i positions Hi _ IH]; simpl; [reflexivity|].
    destruct (existsb (Nat.eqb i) idx); simpl; [exact IH|].
    rewrite (nth_error_nth' l d Hi), IH. reflexivity. }
  apply G. apply Forall_forall. intros i Hi. apply in_seq in Hi. lia.
Qed.

Lemma kept_partition (idx : list nat) (m : nat) :
  NoDup idx -> Forall (fun i => i < m) idx ->
  Permutation (idx ++ kept idx m) (seq 0 m).
Proof.
  intros Nd Hr. rewrite Forall_forall in Hr.
  assert (In_kept : forall x, In x (kept idx m) <-> x < m /\ ~ In x idx).
  { intros x. unfold kept. rewrite filter_In, in_seq, negb_true_iff.
    split; intros [Hx Hn]; (split; [lia|]).
    - intros Hin. assert (E : existsb (Nat.eqb x) idx = true).
      { apply existsb_exists. exists x. split; [exact Hin|apply Nat.eqb_refl]. }
      congruence.
    - destruct (existsb (Nat.eqb x) idx) eqn:E; [|reflexivity].
      apply existsb_exists in E as (z & Hz & Ez). apply Nat.eqb_eq in Ez.
      subst z. contradiction. }
  apply NoDup_Permutation.
  - apply NoDup_app; [exact Nd|apply NoDup_filter, seq_NoDup|].
    intros a Ha Hk. apply In_kept in Hk. tauto.
  - apply seq_NoDup.
  - intros x. rewrite in_app_iff, In_kept, in_seq. split.
    + intros [Hx|[Hx _]]; [specialize (Hr x Hx)|]; lia.
    + intros Hx. destruct (in_dec Nat.eq_dec x idx); [left|right]; auto.
      split; [lia|assumption].
Qed.

Lemma gather_all {A} (d : A) (l : list A) : gather d (seq 0 (length l)) l = l.
Proof. unfold gather. symmetry. apply list_as_map_nth. Qed.

Lemma gather_permutation {A} (d : A) (idx : list nat) (l : list A) :
  Permutation idx (seq 0 (length l)) -> Permutation (gather d idx l) l.
Proof.
  intros P. rewrite <- (gather_all d l) at 2.
  unfold gather. apply Permutation_map, P.
Qed.

Lemma gather_combine {A B} (da : A) (db : B) (u : list A) (v : list B) idx :
  length u = length v ->
  combine (gather da idx u) (gather db idx v)
  = gather (da, db) idx (combine u v).
Proof.
  intros E. unfold gather.
  induction idx as [|i idx IH]; simpl; [reflexivity|].
  rewrite IH, (combine_nth u v i da db E). reflexivity.
Qed.

Lemma gather_length {A} (d : A) idx (l : list A) :
  length (gather d idx l) = length idx.
Proof. unfold gather. apply length_map. Qed.

Lemma skipn_combine {A B} (n : nat) : forall (u : list A) (v : list B),
  skipn n (combine u v) = combine (skipn n u) (skipn n v).
Proof.
  induction n as [|n IH]; intros [|a u] [|b v]; simpl; try reflexivity.
  - destruct (skipn n u); reflexivity.
  - apply IH.
Qed.

Lemma slice_combine {A B} (a b : nat) (u : list A) (v : list B) :
  py_slice a b (combine u v) = combine (py_slice a b u) (py_slice a b v).
Proof.
  unfold py_slice. rewrite skipn_combine, combine_firstn. reflexivity.
Qed.

Lemma kept_length (idx : list nat) (m : nat) :
  NoDup idx -> Forall (fun i => i < m) idx ->
  length idx + length (kept idx m) = m.
Proof.
  intros Nd Hr. pose proof (Permutation_length (kept_partition Nd Hr)) as L.
  rewrite length_app, length_seq in L. exact L.
Qed.

Lemma kept_in_range (idx : list nat) (m : nat) :
  Forall (fun i => i < m) (kept idx m).
Proof.
  apply Forall_forall. intros i Hi. unfold kept in Hi.
  apply filter_In in Hi as [Hi _]. apply in_seq in Hi. lia.
Qed.

Lemma gather_Forall {A} (P : A -> Prop) (d : A) (l : list A) idx :
  Forall P l -> Forall (fun i => i < length l) idx ->
  Forall P (gather d idx l).
Proof.
  intros Hl Hidx. unfold gather. apply Forall_map.
  eapply Forall_impl; [|exact Hidx]. intros i Hi. simpl.
  rewrite Forall_forall in Hl. apply Hl, nth_In, Hi.
Qed.

Section GetData.
Context `{Scalar}.

Lemma get_data_run (data : ndarray2) (target : list num)
    (perm test_idx : list nat) (n : nat) :
  let m := length (rows data) in
  let X_rows := gather [] perm (rows (add_intercept data)) in
  let y := gather zero perm target in
  length target = m ->
  Permutation perm (seq 0 m) ->
  NoDup test_idx ->
  length test_idx = test_size ->
  Forall (fun i => i < m) test_idx ->
  get_data data target perm test_idx n
  = bindR (get_data_split
             {| ncols := ncols data + 1;
                rows := gather [] (kept test_idx m) X_rows |}
             (gather zero (kept test_idx m) y) n)
          (fun split =>
             Ok (fst split, snd split,
                 {| ncols := ncols data + 1;
                    rows := gather [] test_idx X_rows |},
                 gather zero test_idx y)).
Proof.
  intros m X_rows y Ht Pp Nd Lt Rt.
  assert (Rp : Forall (fun i => i < m) perm).
  { apply Forall_forall. intros i Hi.
    apply (Permutation_in _ Pp), in_seq in Hi. lia. }
  assert (Lp : length perm = m)
    by (rewrite (Permutation_length Pp); apply length_seq).
  assert (Lx : length X_rows = m) by (unfold X_rows; rewrite gather_length; exact Lp).
  assert (Ly : length y = m) by (unfold y; rewrite gather_length; exact Lp).
  assert (Big : test_size <= m).
  { assert (I : incl test_idx (seq 0 m)).
    { intros i Hi. rewrite Forall_forall in Rt. apply in_seq.
      specialize (Rt i Hi). lia. }
    pose proof (NoDup_incl_length Nd I) as B.
    rewrite length_seq, Lt in B. exact B. }
  unfold get_data.
  rewrite (take_run (@nil num)) by (simpl; rewrite length_map; exact Rp).
  simpl bindR. rewrite (take_run zero) by (rewrite Ht; exact Rp).
  simpl bindR. fold y.
  change (gather [] perm (map (fun r : list num => (r ++ [one])%list)
                              (rows data))) with X_rows.
  rewrite Lx.
  replace (m <? test_size) with false by (symmetry; apply Nat.ltb_ge; exact Big).
  rewrite (take_run (@nil num)) by (rewrite Lx; exact Rt).
  simpl bindR. rewrite (take_run zero) by (rewrite Ly; exact Rt).
  simpl bindR.
  rewrite (mask_out_run (@nil num)), (mask_out_run zero), Lx, Ly.
  reflexivity.
Qed.

(** X22. [get_data] neither loses, duplicates nor mislabels a sample: the
    (row, target) pairs of the test set, of the clients and of a leftover
    of fewer than [n_clients] pairs are, together, a rearrangement of the
    pairs of the dataset with the intercept column added.  In particular
    no test sample is among the training samples of any client.  The test
    set has 50 samples. *)
Theorem get_data_partitions_the_samples (data : ndarray2) (target : list num)
    (perm test_idx : list nat) (n : nat) :
  length target = length (rows data) ->
  Permutation perm (seq 0 (length (rows data))) ->
  NoDup test_idx ->
  length test_idx = test_size ->
  Forall (fun i => i < length (rows data)) test_idx ->
  n <> 0 ->
  exists Xs ys X_test y_test leftover,
    get_data data target perm test_idx n = Ok (Xs, ys, X_test, y_test)
    /\ Permutation
         (combine (rows X_test) y_test
          ++ concat (zip_with (fun Xi yi => combine (rows Xi) yi) Xs ys)
          ++ leftover)
         (combine (rows (add_intercept data)) target)
    /\ length (rows X_test) = test_size
    /\ length leftover < n.
Proof.
  intros Ht Pp Nd Lt Rt Hn.
  rewrite (@get_data_run data target perm test_idx n Ht Pp Nd Lt Rt).
  set (m := length (rows data)) in *.
  set (R := rows (add_intercept data)).
  assert (LR : length R = m) by (unfold R; simpl; apply length_map).
  assert (Lp : length perm = m)
    by (rewrite (Permutation_length Pp); apply length_seq).
  set (X_rows := gather [] perm R).
  set (y := gather zero perm target).
  set (K := kept test_idx m).
  set (X_train := gather [] K X_rows).
  set (y_train := gather zero K y).
  assert (Lxy : length X_rows = length y)
    by (unfold X_rows, y; rewrite !gather_length; reflexivity).
  assert (Lx : length X_rows = m)
    by (unfold X_rows; rewrite gather_length; exact Lp).
  assert (Ltr : length X_train = length y_train)
    by (unfold X_train, y_train; rewrite !gather_length; reflexivity).
  unfold get_data_split.
  replace (n =? 0) with false by (symmetry; apply Nat.eqb_neq; exact Hn).
  cbn [bindR fst snd rows ncols].
  set (s := length X_train / n).
  eexists; eexists; eexists; eexists.
  exists (skipn (s * n) (combine X_train y_train)).
  split; [reflexivity|]. cbn [rows]. split; [|split].
  - rewrite zip_with_map. cbn [rows].
    rewrite (map_ext _ (fun c => py_slice (s * c) (s * (c + 1))
                                   (combine X_train y_train)))
      by (intros c; symmetry; apply slice_combine).
    rewrite slices_concat, firstn_skipn.
    unfold X_train, y_train. rewrite !gather_combine by assumption.
    unfold gather at 1 2. rewrite <- map_app.
    fold (gather (@nil num, zero) (test_idx ++ K) (combine X_rows y)).
    eapply Permutation_trans.
    + apply gather_permutation.
      rewrite length_combine, <- Lxy, Nat.min_id, Lx.
      apply kept_partition; assumption.
    + unfold X_rows, y. rewrite gather_combine by congruence.
      apply gather_permutation.
      rewrite length_combine, LR, Ht. fold m. rewrite Nat.min_id. exact Pp.
  - rewrite gather_length. exact Lt.
  - rewrite length_skipn, length_combine, <- Ltr, Nat.min_id.
    pose proof (Nat.mod_upper_bound (length X_train) n Hn) as U.
    rewrite (Nat.Div0.mod_eq (length X_train) n) in U. unfold s. lia.
Qed.

Lemma get_data_ok (data : ndarray2) (target : list num)
    (perm test_idx : list nat) (n : nat) :
  Forall (fun r => length r = ncols data) (rows data) ->
  length target = length (rows data) ->
  Permutation perm (seq 0 (length (rows data))) ->
  NoDup test_idx ->
  length test_idx = test_size ->
  Forall (fun i => i < length (rows data)) test_idx ->
  1 <= n ->
  n <= length (rows data) - test_size ->
  exists Xs ys X_test y_test,
    get_data data target perm test_idx n = Ok (Xs, ys, X_test, y_test)
    /\ length Xs = n
    /\ Forall2 (well_shaped (ncols data + 1)) Xs ys
    /\ ncols X_test = ncols data + 1
    /\ Forall (fun r => length r = ncols data + 1) (rows X_test)
    /\ length (rows X_test) = test_size
    /\ length y_test = test_size.
Proof.
  intros Hd Ht Pp Nd Lt Rt H1 Hn.
  rewrite (@get_data_run data target perm test_idx n Ht Pp Nd Lt Rt).
  set (m := length (rows data)) in *.
  set (R := rows (add_intercept data)).
  assert (LR : length R = m) by (unfold R; simpl; apply length_map).
  assert (HR : Forall (fun r => length r = ncols data + 1) R).
  { unfold R. simpl. apply Forall_map. eapply Forall_impl; [|exact Hd].
    intros r Hr. simpl. rewrite length_app, Hr. reflexivity. }
  assert (Lp : length perm = m)
    by (rewrite (Permutation_length Pp); apply length_seq).
  assert (Rp : Forall (fun i => i < m) perm).
  { apply Forall_forall. intros i Hi.
    apply (Permutation_in _ Pp), in_seq in Hi. lia. }
  set (X_rows := gather [] perm R).
  set (y := gather zero perm target).
  assert (Lx : length X_rows = m)
    by (unfold X_rows; rewrite gather_length; exact Lp).
  assert (HX : Forall (fun r => length r = ncols data + 1) X_rows).
  { apply gather_Forall; [exact HR|rewrite LR; exact Rp]. }
  pose proof (kept_length Nd Rt) as LK.
  destruct (@get_data_split_ok _
              {| ncols := ncols data + 1;
                 rows := gather [] (kept test_idx m) X_rows |}
              (gather zero (kept test_idx m) y) n)
    as (Xs & ys & E & LXs & W & _).
  - cbn [rows ncols]. apply gather_Forall; [exact HX|].
    rewrite Lx. apply kept_in_range.
  - cbn [rows]. rewrite !gather_length. reflexivity.
  - exact H1.
  - cbn [rows]. rewrite gather_length. lia.
  - rewrite E. cbn [bindR fst snd].
    exists Xs, ys. eexists; eexists. split; [reflexivity|].
    cbn [rows ncols]. repeat split; auto.
    + apply gather_Forall; [exact HX|rewrite Lx; exact Rt].
    + rewrite gather_length. exact Lt.
    + rewrite gather_length. exact Lt.
Qed.

(** X23. What [get_data] returns is what the learners need: for a
    rectangular dataset and [1 <= n_clients <= m - 50] it yields
    [n_clients] well-shaped clients, all with the dataset's columns plus
    the intercept column, and a test set of 50 rows with 50 targets and
    the same number of columns. *)
Theorem get_data_feeds_the_learners (data : ndarray2) (target : list num)
    (perm test_idx : list nat) (n : nat) :
  Forall (fun r => length r = ncols data) (rows data) ->
  length target = length (rows data) ->
  Permutation perm (seq 0 (length (rows data))) ->
  NoDup test_idx ->
  length test_idx = test_size ->
  Forall (fun i => i < length (rows data)) test_idx ->
  1 <= n ->
  n <= length (rows data) - test_size ->
  exists Xs ys X_test y_test,
    get_data data target perm test_idx n = Ok (Xs, ys, X_test, y_test)
    /\ length Xs = n
    /\ Forall2 (well_shaped (ncols data + 1)) Xs ys
    /\ ncols X_test = ncols data + 1
    /\ Forall (fun r => length r = ncols data + 1) (rows X_test)
    /\ length (rows X_test) = test_size
    /\ length y_test = test_size.
Proof. apply get_data_ok. Qed.

(** X24. With more clients than training rows the split raises nothing
    and hands every client an empty dataset: no row and no target. *)
Theorem get_data_split_more_clients_than_rows (X_train : ndarray2)
    (y_train : list num) (n : nat) :
  length (rows X_train) < n ->
  exists Xs ys,
    get_data_split X_train y_train n = Ok (Xs, ys)
    /\ length Xs = n /\ length ys = n
    /\ Forall (fun Xi => rows Xi = []) Xs
    /\ Forall (fun yi => yi = []) ys.
Proof.
  intros Hn. unfold get_data_split.
  replace (n =? 0) with false by (symmetry; apply Nat.eqb_neq; lia).
  rewrite (Nat.div_small _ _ Hn).
  eexists; eexists. split; [reflexivity|].
  rewrite !length_map, length_seq. repeat split.
  - apply Forall_map, Forall_forall. intros c _. reflexivity.
  - apply Forall_map, Forall_forall. intros c _. reflexivity.
Qed.

(** X25. [get_data] on a dataset of fewer than 50 samples raises the
    [ValueError] of [np.random.choice]; on a larger one with
    [n_clients = 0] it raises [ZeroDivisionError], after the test set has
    been drawn. *)
Theorem get_data_errors (data : ndarray2) (target : list num)
    (perm test_idx : list nat) (n : nat) :
  length target = length (rows data) ->
  Permutation perm (seq 0 (length (rows data))) ->
  (length (rows data) < test_size ->
   get_data data target perm test_idx n
   = Raise (ValueError
       "Cannot take a larger sample than population when 'replace=False'"))
  /\ (NoDup test_idx -> length test_idx = test_size ->
      Forall (fun i => i < length (rows data)) test_idx ->
      n = 0 ->
      get_data data target perm test_idx n
      = Raise (ZeroDivisionError "division by zero")).
Proof.
  intros Ht Pp. split.
  - intros Small.
    assert (Rp : Forall (fun i => i < length (rows data)) perm).
    { apply Forall_forall. intros i Hi.
      apply (Permutation_in _ Pp), in_seq in Hi. lia. }
    assert (Lp : length perm = length (rows data))
      by (rewrite (Permutation_length Pp); apply length_seq).
    unfold get_data.
    rewrite (take_run (@nil num)) by (simpl; rewrite length_map; exact Rp).
    cbn [bindR]. rewrite (take_run zero) by (rewrite Ht; exact Rp).
    cbn [bindR]. rewrite gather_length, Lp.
    apply Nat.ltb_lt in Small. rewrite Small. reflexivity.
  - intros Nd Lt Rt ->.
    rewrite (@get_data_run data target perm test_idx 0 Ht Pp Nd Lt Rt).
    reflexivity.
Qed.
End GetData.

Lemma sample_of_60_in_range :
  Forall (fun i => i < length (rows data60)) (seq 0 50).
Proof.
  apply Forall_forall. intros i Hi. apply in_seq in Hi.
  change (length (rows data60)) with 60. lia.
Qed.

Lemma reversal_of_60 :
  Permutation (rev (seq 0 60)) (seq 0 (length (rows data60))).
Proof.
  change (length (rows data60)) with 60.
  apply Permutation_sym, Permutation_rev.
Qed.

Lemma get_data_partitions_the_samples_witness :
  exists Xs ys X_test y_test leftover,
    get_data data60 target60 (rev (seq 0 60)) (seq 0 50) 2
    = Ok (Xs, ys, X_test, y_test)
    /\ Permutation
         (combine (rows X_test) y_test
          ++ concat (zip_with (fun Xi yi => combine (rows Xi) yi) Xs ys)
          ++ leftover)
         (combine (rows (add_intercept data60)) target60)
    /\ length (rows X_test) = test_size
    /\ length leftover < 2.
Proof.
  apply (@get_data_partitions_the_samples Scalar_Qc data60 target60
           (rev (seq 0 60)) (seq 0 50) 2).
  - reflexivity.
  - exact reversal_of_60.
  - apply seq_NoDup.
  - reflexivity.
  - exact sample_of_60_in_range.
  - discriminate.
Defined.

Lemma get_data_feeds_the_learners_witness :
  exists Xs ys X_test y_test,
    get_data data60 target60 (rev (seq 0 60)) (seq 0 50) 2
    = Ok (Xs, ys, X_test, y_test)
    /\ length Xs = 2
    /\ Forall2 (well_shaped (ncols data60 + 1)) Xs ys
    /\ ncols X_test = ncols data60 + 1
    /\ Forall (fun r => length r = ncols data60 + 1) (rows X_test)
    /\ length (rows X_test) = test_size
    /\ length y_test = test_size.
Proof.
  apply (@get_data_feeds_the_learners Scalar_Qc data60 target60
           (rev (seq 0 60)) (seq 0 50) 2).
  - unfold data60. cbn [rows ncols]. apply Forall_map, Forall_forall.
    intros i _. reflexivity.
  - reflexivity.
  - exact reversal_of_60.
  - apply seq_NoDup.
  - reflexivity.
  - exact sample_of_60_in_range.
  - lia.
  - change (length (rows data60)) with 60. unfold test_size. lia.
Defined.


Lemma get_data_split_more_clients_than_rows_witness :
  exists Xs ys,
    get_data_split X_b y_b 3 = Ok (Xs, ys)
    /\ length Xs = 3 /\ length ys = 3
    /\ Forall (fun Xi => rows Xi = []) Xs
    /\ Forall (fun yi => yi = []) ys.
Proof.
  apply (@get_data_split_more_clients_than_rows Scalar_Qc X_b y_b 3).
  simpl. lia.
Defined.

Lemma get_data_errors_witness :
  @get_data Scalar_Qc X_a y_a [1; 0] [] 3
  = Raise (ValueError
      "Cannot take a larger sample than population when 'replace=False'")
  /\ get_data data60 target60 (rev (seq 0 60)) (seq 0 50) 0
     = Raise (ZeroDivisionError "division by zero").
Proof.
  split.
  - apply (proj1 (@get_data_errors Scalar_Qc X_a y_a [1; 0] [] 3
                    eq_refl (perm_swap 0 1 []))).
    unfold test_size. simpl. lia.
  - apply (proj2 (@get_data_errors Scalar_Qc data60 target60
                    (rev (seq 0 60)) (seq 0 50) 0 eq_refl reversal_of_60)).
    + apply seq_NoDup.
    + reflexivity.
    + exact sample_of_60_in_range.
    + reflexivity.
Defined.

(** ** The main program *)

(** X26. On every rectangular dataset with at least 55 samples, whatever
    the shuffle and the test sample drawn, the first two stages of the
    main program return: [get_data] produces the five clients and
    [local_learning] reports one error for each of [Hospital 1] to
    [Hospital 5]; the outcome of the main program is then the outcome of
    [hybrid_learning] on that data.  Whenever the main program runs to
    the end, it returns that local report and five errors of the hybrid
    learner that are all equal. *)
Theorem main_reports `{Paillier} (data : ndarray2) (target : list num)
    (perm test_idx : list nat) (e : Entropy) :
  Forall (fun r => length r = ncols data) (rows data) ->
  length target = length (rows data) ->
  Permutation perm (seq 0 (length (rows data))) ->
  NoDup test_idx ->
  length test_idx = test_size ->
  Forall (fun i => i < length (rows data)) test_idx ->
  5 <= length (rows data) - test_size ->
  exists Xs ys X_test y_test local,
    get_data data target perm test_idx 5 = Ok (Xs, ys, X_test, y_test)
    /\ local_learning Xs ys X_test y_test main_config = Ok local
    /\ map fst local = hospital_names 5
    /\ main data target perm test_idx e
       = (h <- hybrid_learning Xs ys X_test y_test main_config ;;
          ret (local, snd h))%se e
    /\ forall out e',
         main data target perm test_idx e = Ok (out, e') ->
         fst out = local
         /\ length (snd out) = 5
         /\ forall r1 r2, In r1 (snd out) -> In r2 (snd out) ->
              snd r1 = snd r2.
Proof.
  intros Hd Ht Pp Nd Lt Rt Hm.
  destruct (@get_data_ok _ data target perm test_idx 5 Hd Ht Pp Nd Lt Rt)
    as (Xs & ys & X_test & y_test & E & LXs & W & Hc & _ & LXt & Lyt);
    [lia|exact Hm|].
  destruct (@local_learning_ok _ _ (ncols data + 1) Xs ys X_test y_test
              main_config W)
    as (local & El & Nl); [simpl; lia|exact Hc|congruence|].
  assert (M : main data target perm test_idx e
              = (h <- hybrid_learning Xs ys X_test y_test main_config ;;
                 ret (local, snd h))%se e).
  { unfold main. change (n_clients main_config) with 5.
    erewrite bind_Ok by (apply liftR_Ok; exact E). cbn [fst snd].
    erewrite bind_Ok by (apply liftR_Ok; exact El). reflexivity. }
  exists Xs, ys, X_test, y_test, local.
  split; [exact E|]. split; [exact El|]. split; [exact Nl|].
  split; [exact M|].
  intros out e' Run. rewrite M in Run.
  apply bind_Ok_inv in Run as ([clients hybrid] & e2 & Eh & Run).
  unfold ret in Run. injection Run as <- <-. cbn [fst snd].
  destruct (@hybrid_learning_reports _ _ _ _ _ _ _ _ _ _ _ _ W Eh)
    as (Lh & _ & Same).
  split; [reflexivity|]. split; [|exact Same].
  rewrite Lh, LXs. reflexivity.
Qed.

Lemma main_reports_witness :
  exists local hybrid e',
    @main Scalar_Qc (MaskCipher Scalar_Qc) data_half target_half
      (rev (seq 0 60)) (seq 0 50) entropy_Qc
    = Ok ((local, hybrid), e')
    /\ map fst local = hospital_names 5
    /\ length hybrid = 5
    /\ forall r1 r2, In r1 hybrid -> In r2 hybrid -> snd r1 = snd r2.
Proof.
  destruct (completes_Ok
              (@main Scalar_Qc (MaskCipher Scalar_Qc) data_half target_half
                 (rev (seq 0 60)) (seq 0 50) entropy_Qc))
    as [[[local hybrid] e'] Run]; [vm_compute; reflexivity|].
  destruct (@main_reports Scalar_Qc (MaskCipher Scalar_Qc) data_half
              target_half (rev (seq 0 60)) (seq 0 50) entropy_Qc)
    as (Xs & ys & X_test & y_test & local' & _ & _ & Nl & _ & Out).
  - unfold data_half. cbn [rows ncols]. apply Forall_map, Forall_forall.
    intros i _. reflexivity.
  - reflexivity.
  - exact reversal_of_60.
  - apply seq_NoDup.
  - reflexivity.
  - exact sample_of_60_in_range.
  - change (length (rows data_half)) with 60. unfold test_size. lia.
  - destruct (Out _ _ Run) as (Hl & L5 & Same). cbn [fst snd] in Hl, L5, Same.
    exists local, hybrid, e'. split; [exact Run|].
    split; [rewrite Hl; exact Nl|]. split; [exact L5 | exact Same].
Defined.
